(** * PythonTwitchBotFramework: mod loader and poll commands

    A shallow embedding of [twitchbot/modloader.py] (the mod registry and the
    event fan-out) and of [twitchbot/builtin_commands/poll_commands.py] (the
    chat commands [startpoll], [vote], [listpolls] and [pollinfo]), with the
    properties of both that the specification states.

    Layout: the Python runtime pieces the two files rely on ([str] methods,
    [int], [float], the [re] engine on the fragment the poll pattern uses),
    then the two source files as modules, then the theorems. *)

From Stdlib Require Import ZArith QArith Ascii String List Bool Lia.
From Stdlib Require Import DecimalString DecimalPos Qcanon.
From stdpp Require Import base option list gmap strings.

Local Open Scope Z_scope.

(* ===================================================================== *)
(** ** Python values: characters, strings, numbers, exceptions            *)
(* ===================================================================== *)

Module Py.

(** A Python [str] is a sequence of code points.  The embedding covers the
    code points U+0000..U+00FF: a character is an [ascii] read as the code
    point with the same number (Latin-1), a [str] is a [string]. *)

Definition code (c : ascii) : N := N_of_ascii c.

Definition in_range (lo hi : N) (c : ascii) : bool :=
  ((lo <=? code c) && (code c <=? hi))%N.

Definition is_code (n : N) (c : ascii) : bool := (code c =? n)%N.

(** Unicode decimal digits (category Nd) below U+0100: ['0'..'9']. *)
Definition is_decimal (c : ascii) : bool := in_range 48 57 c.

(** [c.isdigit()]: Numeric_Type Decimal or Digit.  Below U+0100 these are the
    decimal digits and the superscripts U+00B2, U+00B3, U+00B9. *)
Definition is_digit (c : ascii) : bool :=
  is_decimal c || is_code 178 c || is_code 179 c || is_code 185 c.

(** [c.isnumeric()]: adds the vulgar fractions U+00BC..U+00BE. *)
Definition is_numeric (c : ascii) : bool := is_digit c || in_range 188 190 c.

(** [c.isalpha()]: the letters (general category L) below U+0100. *)
Definition is_alpha (c : ascii) : bool :=
  in_range 65 90 c || in_range 97 122 c
  || is_code 170 c || is_code 181 c || is_code 186 c
  || in_range 192 214 c || in_range 216 246 c || in_range 248 255 c.

(** [c.isspace()], also the class [\s] of [re] on [str] patterns. *)
Definition is_space (c : ascii) : bool :=
  in_range 9 13 c || in_range 28 32 c || is_code 133 c || is_code 160 c.

(** The class [\w] of [re] on [str] patterns: alphanumeric or underscore. *)
Definition is_word (c : ascii) : bool :=
  is_alpha c || is_numeric c || is_code 95 c.

Fixpoint all_chars (p : ascii -> bool) (s : string) : bool :=
  match s with
  | EmptyString => true
  | String c s' => p c && all_chars p s'
  end.

Definition is_empty (s : string) : bool :=
  match s with EmptyString => true | String _ _ => false end.

(** No character of the string is a decimal digit. *)
Definition no_decimal (s : string) : bool :=
  all_chars (fun c => negb (is_decimal c)) s.

(** [s.isdigit()]: every character is a digit and there is at least one. *)
Definition isdigit (s : string) : bool :=
  negb (is_empty s) && all_chars is_digit s.

(** The value of a run of decimal digits, most significant first; [None] when
    a character is not a decimal digit. *)
Fixpoint digits_value (acc : Z) (s : string) : option Z :=
  match s with
  | EmptyString => Some acc
  | String c s' =>
      if is_decimal c
      then digits_value (10 * acc + (Z.of_N (code c) - 48)) s'
      else None
  end.

(** [int(s)] on the strings that reach it in the handlers, those that passed
    [isdigit]: a non-empty run of decimal digits is its value, anything else
    is a [ValueError] ([None]).  (Python's [int] also takes a sign, blanks
    around the number and underscores; no such string passes [isdigit].  An
    interpreter that bounds the length of the numbers [int] reads is outside
    the embedding.) *)
Definition int (s : string) : option Z :=
  if is_empty s then None else digits_value 0 s.

(** [str(n)] for an [int]. *)
Definition str_of_int (n : Z) : string := NilZero.string_of_int (Z.to_int n).

(** [s.lstrip()], [s.rstrip()], [s.strip()]. *)
Fixpoint lstrip (s : string) : string :=
  match s with
  | EmptyString => EmptyString
  | String c s' => if is_space c then lstrip s' else s
  end.

Fixpoint rstrip (s : string) : string :=
  match s with
  | EmptyString => EmptyString
  | String c s' =>
      match rstrip s' with
      | EmptyString => if is_space c then EmptyString else String c EmptyString
      | r => String c r
      end
  end.

Definition strip (s : string) : string := rstrip (lstrip s).

(** The longest prefix whose characters are all in a class, and the rest. *)
Fixpoint take_while (p : ascii -> bool) (s : string) : string :=
  match s with
  | EmptyString => EmptyString
  | String c s' => if p c then String c (take_while p s') else EmptyString
  end.

(** Does the string start with a character of the class? *)
Definition starts_in (p : ascii -> bool) (s : string) : bool :=
  match s with
  | EmptyString => false
  | String c _ => p c
  end.

Fixpoint drop_while (p : ascii -> bool) (s : string) : string :=
  match s with
  | EmptyString => EmptyString
  | String c s' => if p c then drop_while p s' else s
  end.

(** [s.split(sep)] for a one-character separator. *)
Fixpoint split (sep : ascii) (s : string) : list string :=
  match s with
  | EmptyString => [EmptyString]
  | String c s' =>
      if Ascii.eqb c sep then EmptyString :: split sep s'
      else match split sep s' with
           | h :: t => String c h :: t
           | [] => [String c EmptyString]
           end
  end.

(** [s.count(c)] for a character. *)
Fixpoint count_char (c : ascii) (s : string) : nat :=
  match s with
  | EmptyString => 0%nat
  | String x s' => if Ascii.eqb x c then S (count_char c s') else count_char c s'
  end.

(** [sep.join(parts)]. *)
Fixpoint join (sep : string) (parts : list string) : string :=
  match parts with
  | [] => EmptyString
  | [p] => p
  | p :: ps => p +:+ sep +:+ join sep ps
  end.

(** Numbers.  A [float] is written as the exact value of the decimal literal
    it was read from; Python holds the binary64 nearest to it (60 and 30 are
    binary64 values).  Literals at or above the rounding threshold of
    binary64 read as [inf]. *)
Inductive num :=
| Int (n : Z)
| Float (q : Q)
| Inf.

Definition float_overflow : Q := inject_Z (2 ^ 1024 - 2 ^ 970).

Definition float_of_decimal (mantissa : Z) (frac_digits : nat) : num :=
  let q := Qred (Qmake mantissa (Z.to_pos (10 ^ Z.of_nat frac_digits))) in
  if Qle_bool float_overflow q then Inf else Float q.

(** The numeric value of a finite number. *)
Definition num_value (x : num) : option Q :=
  match x with
  | Int n => Some (inject_Z n)
  | Float q => Some q
  | Inf => None
  end.

(** [x == y] on numbers: an [int] and a [float] of the same value are
    equal. *)
Definition num_eqb (x y : num) : bool :=
  match num_value x, num_value y with
  | Some a, Some b => Qeq_bool a b
  | None, None => true
  | _, _ => false
  end.

(** Splits at the first ['.']: the part before it and, when there is one,
    the part after it. *)
Fixpoint cut_at_dot (s : string) : string * option string :=
  match s with
  | EmptyString => (EmptyString, None)
  | String c s' =>
      if is_code 46 c then (EmptyString, Some s')
      else let '(a, b) := cut_at_dot s' in (String c a, b)
  end.

(** [float(s)] on the strings the poll pattern can capture, those over
    [[0-9.]]: digits with at most one point and at least one digit; anything
    else is a [ValueError] ([None]). *)
Definition float (s : string) : option num :=
  let '(ip, fp) := cut_at_dot s in
  let fp' := match fp with Some f => f | None => EmptyString end in
  if is_empty ip && is_empty fp' then None
  else match digits_value 0 (ip +:+ fp') with
       | Some m => Some (float_of_decimal m (String.length fp'))
       | None => None
       end.

(** Modelled from the spec: [InvalidArgumentsError], the argument error of
    the framework, is not among the sources; it derives from [Exception] and
    carries a reason and, when given, the command.  The other constructors
    are Python's: [ValueError] and [IndexError]; [UserException] for any
    other class deriving from [Exception]; [BaseExceptionOnly] for a class
    deriving from [BaseException] but not from [Exception]
    ([KeyboardInterrupt], [SystemExit], ...). *)
Inductive exc :=
| InvalidArgumentsError (reason : string) (cmd : option string)
| ValueError (msg : string)
| IndexError
| UserException (ty msg : string)
| BaseExceptionOnly (ty msg : string).

(** [isinstance(e, Exception)]. *)
Definition is_Exception (e : exc) : bool :=
  match e with
  | BaseExceptionOnly _ _ => false
  | _ => true
  end.

(** The outcome of a call: a value, or a raised exception. *)
Inductive result (A : Type) :=
| Return (a : A)
| Raise (e : exc).
Arguments Return {A} a.
Arguments Raise {A} e.

End Py.

(* ===================================================================== *)
(** ** The [re] engine on the fragment the poll pattern uses              *)
(* ===================================================================== *)

Module Re.

(** Patterns: one character of a class, a greedy repetition [C*] of a class,
    concatenation, and a capturing group (numbered from 1, as [match[i]]). *)
Inductive regex :=
| Chr (cls : ascii -> bool)
| Star (cls : ascii -> bool)
| Cat (r1 r2 : regex)
| Grp (i : nat) (r : regex).

(** [C+] *)
Definition Plus (cls : ascii -> bool) : regex := Cat (Chr cls) (Star cls).

(** The text a sub-pattern consumed: what [s] has in front of its suffix
    [rest]. *)
Definition consumed (s rest : string) : string :=
  String.substring 0 (String.length s - String.length rest) s.

(** [groups m]: the captures, [None] for a group that took no part. *)
Abbreviation captures := (list (option string)).

Section Matcher.
Context {A : Type}.

(** Greedy [C*] by backtracking: take one more character while the class
    allows and the rest of the pattern then matches; give characters back
    one at a time otherwise. *)
Fixpoint star_match (cls : ascii -> bool) (s : string)
    (k : string -> option A) : option A :=
  match s with
  | String c s' =>
      if cls c
      then match star_match cls s' k with
           | Some r => Some r
           | None => k s
           end
      else k s
  | EmptyString => k s
  end.

(** [rmatch r s g k]: match [r] at the front of [s] with captures [g] so
    far, then run the rest of the pattern [k] on what is left; the first
    success in backtracking order wins. *)
Fixpoint rmatch (r : regex) (s : string) (g : captures)
    (k : string -> captures -> option A) : option A :=
  match r with
  | Chr cls =>
      match s with
      | String c s' => if cls c then k s' g else None
      | EmptyString => None
      end
  | Star cls => star_match cls s (fun s' => k s' g)
  | Cat r1 r2 => rmatch r1 s g (fun s1 g1 => rmatch r2 s1 g1 k)
  | Grp i r1 =>
      rmatch r1 s g (fun s' g' => k s' (<[Nat.pred i := Some (consumed s s')]> g'))
  end.

End Matcher.

(** The strings a pattern matches. *)
Fixpoint lang (r : regex) (w : string) : Prop :=
  match r with
  | Chr cls => exists c, w = String c EmptyString /\ cls c = true
  | Star cls => Py.all_chars cls w = true
  | Cat r1 r2 => exists w1 w2, w = w1 +:+ w2 /\ lang r1 w1 /\ lang r2 w2
  | Grp _ r1 => lang r1 w
  end.

(** [u] is a piece of [w]. *)
Definition occurs_in (u w : string) : Prop := exists a b, w = a +:+ u +:+ b.

(** After a sub-pattern matched [w], the captures [g'] are those before it,
    [g], but for the groups it went through, which hold pieces of [w]. *)
Definition captured_in (g g' : captures) (w : string) : Prop :=
  length g' = length g
  /\ forall j, g' !! j = g !! j
          \/ exists u, g' !! j = Some (Some u) /\ occurs_in u w.

Fixpoint ngroups (r : regex) : nat :=
  match r with
  | Chr _ | Star _ => 0%nat
  | Cat r1 r2 => Nat.max (ngroups r1) (ngroups r2)
  | Grp i r1 => Nat.max i (ngroups r1)
  end.

(** [pattern.match(s)]: a match at the front of [s]. *)
Definition match_at (r : regex) (s : string) : option captures :=
  rmatch r s (replicate (ngroups r) None) (fun _ g => Some g).

(** [pattern.search(s)]: the match at the leftmost position that has one. *)
Fixpoint search (r : regex) (s : string) : option captures :=
  match match_at r s with
  | Some g => Some g
  | None =>
      match s with
      | String _ s' => search r s'
      | EmptyString => None
      end
  end.

(** [match[i]] for a group that took part. *)
Definition group (g : captures) (i : nat) : string :=
  match g !! Nat.pred i with
  | Some (Some s) => s
  | _ => EmptyString
  end.

End Re.

(* ===================================================================== *)
(** ** Python's [dict]: a map that lists its entries in insertion order   *)
(* ===================================================================== *)

Module Dict.

Definition dict (V : Type) := list (string * V).

Section Ops.
Context {V : Type}.

Definition keys (d : dict V) : list string := map fst d.

(** [d.values()] *)
Definition values (d : dict V) : list V := map snd d.

(** [d.get(k)] *)
Fixpoint get (k : string) (d : dict V) : option V :=
  match d with
  | [] => None
  | (k', v) :: d' => if String.eqb k' k then Some v else get k d'
  end.

(** [k in d] *)
Definition contains (k : string) (d : dict V) : bool :=
  match get k d with Some _ => true | None => false end.

(** [d[k] = v]: a present key keeps its place, a new key goes last. *)
Fixpoint set (k : string) (v : V) (d : dict V) : dict V :=
  match d with
  | [] => [(k, v)]
  | (k', v') :: d' =>
      if String.eqb k' k then (k', v) :: d' else (k', v') :: set k v d'
  end.

(** [del d[k]] for a key that is present (the callers test [k in d]). *)
Fixpoint del (k : string) (d : dict V) : dict V :=
  match d with
  | [] => []
  | (k', v') :: d' =>
      if String.eqb k' k then d' else (k', v') :: del k d'
  end.

(** No key is listed twice. *)
Definition wf (d : dict V) : Prop := List.NoDup (keys d).

End Ops.
End Dict.

(* ===================================================================== *)
(** ** twitchbot/modloader.py                                             *)
(* ===================================================================== *)

Module ModLoader.
Import Py.

(** Modelled from the spec: [enums.Event] is not among the sources; its
    members are the hook names the specification lists, each with its own
    name as value. *)
Inductive Event :=
| on_connected
| on_privmsg_sent
| on_privmsg_received
| on_whisper_sent
| on_whisper_received
| on_before_command_execute
| on_after_command_execute
| on_bits_donated
| on_channel_joined.

(** [event.value] *)
Definition value (e : Event) : string :=
  match e with
  | on_connected => "on_connected"
  | on_privmsg_sent => "on_privmsg_sent"
  | on_privmsg_received => "on_privmsg_received"
  | on_whisper_sent => "on_whisper_sent"
  | on_whisper_received => "on_whisper_received"
  | on_before_command_execute => "on_before_command_execute"
  | on_after_command_execute => "on_after_command_execute"
  | on_bits_donated => "on_bits_donated"
  | on_channel_joined => "on_channel_joined"
  end.

(** What the loader did with the code of the mods, in order: the calls of
    lifecycle callbacks and of hooks.  The list is there to state which
    calls were made; the code does not read it. *)
Inductive call :=
| RegisterCall (mod_name : string)
| UnregisterCall (mod_name : string)
| HookCall (mod_name : string) (event : Event).

(** What [trigger_mod_event] prints for a hook that failed: the mod, the
    event, the error (its type and reason), then the stack trace. *)
Record error_report := {
  report_mod : string;
  report_event : Event;
  report_error : exc;
}.

Section Mods.

(** [World]: whatever the code of the mods reads and writes, the registry
    apart (a callback that registers or unregisters mods is outside the
    embedding).  [Args]: the arguments an event passes to its hooks. *)
Context {World Args : Type}.

(** A method of a mod, seen from its caller: the world it leaves and the
    exception it raised, if it raised one. *)
Definition method := World -> World * option exc.

(** class [Mod]: the name, the two capabilities, the two lifecycle
    callbacks, and the attributes that [getattr] finds by name (the hooks a
    mod has). *)
Record Mod := {
  name : string;
  can_register : bool;
  can_unregister : bool;
  register : method;
  unregister : method;
  attr : string -> option (Args -> method);
}.

(** The global [mods] with the world around it. *)
Record state := {
  mods : Dict.dict Mod;
  world : World;
  calls : list call;
  printed : list error_report;
}.

Definition set_mods (d : Dict.dict Mod) (s : state) : state :=
  {| mods := d; world := world s; calls := calls s; printed := printed s |}.

(** Calling a method of a mod: the call is noted, the method runs. *)
Definition invoke (c : call) (f : method) (s : state) : option exc * state :=
  let '(w, r) := f (world s) in
  (r, {| mods := mods s; world := w; calls := calls s ++ [c];
         printed := printed s |}).

Definition print_report (r : error_report) (s : state) : state :=
  {| mods := mods s; world := world s; calls := calls s;
     printed := printed s ++ [r] |}.

(** [register_mod(mod)] *)
Definition register_mod (m : Mod) (s : state) : result bool * state :=
  if Dict.contains (name m) (mods s) || negb (can_register m)
  then (Return false, s)
  else
    let s1 := set_mods (Dict.set (name m) m (mods s)) s in
    match invoke (RegisterCall (name m)) (register m) s1 with
    | (Some e, s2) => (Raise e, s2)
    | (None, s2) => (Return true, s2)
    end.

(** [unregister_mod(mod)] *)
Definition unregister_mod (m : Mod) (s : state) : result bool * state :=
  if negb (can_unregister m)
  then (Return false, s)
  else if Dict.contains (name m) (mods s)
  then
    let s1 := set_mods (Dict.del (name m) (mods s)) s in
    match invoke (UnregisterCall (name m)) (unregister m) s1 with
    | (Some e, s2) => (Raise e, s2)
    | (None, s2) => (Return true, s2)
    end
  else (Return false, s).

(** [_missing_function]: takes any arguments, does nothing. *)
Definition _missing_function (_ : Args) : method := fun w => (w, None).

(** The body of the loop of [trigger_mod_event] for one mod, and the loop
    over [mods.values()].  [except Exception] takes an exception that is an
    instance of [Exception] and prints the report; any other goes on to the
    caller and ends the loop. *)
Definition trigger_one (event : Event) (args : Args) (m : Mod) (s : state)
    : result unit * state :=
  let '(r, s1) :=
    match attr m (value event) with
    | Some hook => invoke (HookCall (name m) event) (hook args) s
    | None =>
        let '(w, r) := _missing_function args (world s) in
        (r, {| mods := mods s; world := w; calls := calls s;
               printed := printed s |})
    end in
  match r with
  | None => (Return tt, s1)
  | Some e =>
      if is_Exception e
      then (Return tt,
            print_report {| report_mod := name m; report_event := event;
                            report_error := e |} s1)
      else (Raise e, s1)
  end.

Fixpoint trigger_loop (event : Event) (args : Args) (ms : list Mod) (s : state)
    : result unit * state :=
  match ms with
  | [] => (Return tt, s)
  | m :: rest =>
      match trigger_one event args m s with
      | (Return _, s1) => trigger_loop event args rest s1
      | (Raise e, s1) => (Raise e, s1)
      end
  end.

(** [trigger_mod_event(event, args)] *)
Definition trigger_mod_event (event : Event) (args : Args) (s : state)
    : result unit * state :=
  trigger_loop event args (Dict.values (mods s)) s.

(** The calls of hooks that a round over the mods [ms] makes when no hook
    ends it: one for each mod that has the hook, in the order of [ms]. *)
Definition hook_calls (event : Event) (ms : list Mod) : list call :=
  flat_map (fun m => match attr m (value event) with
                     | Some _ => [HookCall (name m) event]
                     | None => []
                     end) ms.

(** Whatever the hook of [m] for the event raises is an instance of
    [Exception]. *)
Definition raises_only_Exception (event : Event) (m : Mod) : Prop :=
  forall hook args w e,
    attr m (value event) = Some hook ->
    snd (hook args w) = Some e -> is_Exception e = true.





(** A value of [module.__dict__] as [load_mods_from_directory] tells them
    apart: not a class; a class that does not derive from [Mod]; the class
    [Mod] itself; a class deriving from [Mod], with what calling it does (the
    world it leaves, and the instance or the exception). *)
Inductive pyobj :=
| NotAClass
| OtherClass
| TheModClass
| ModSubclass (new : World -> World * result Mod).

(** The test of the loop: [isclass(obj)], [issubclass(obj, Mod)] and
    [obj is not Mod]. *)
Definition is_mod_subclass (obj : pyobj) : bool :=
  match obj with
  | ModSubclass _ => true
  | _ => false
  end.

(** A file of the directory: what importing it does, the world it leaves and
    the values of the module or the exception. *)
Definition pyfile := World -> World * result (list pyobj).

Definition set_world (w : World) (s : state) : state :=
  {| mods := mods s; world := w; calls := calls s; printed := printed s |}.

(** The inner loop of [load_mods_from_directory], over the values of one
    module: an instance of each class deriving from [Mod] is made and
    registered; what [register_mod] returns is dropped. *)
Fixpoint load_objects (objs : list pyobj) (s : state) : result unit * state :=
  match objs with
  | [] => (Return tt, s)
  | obj :: rest =>
      match obj with
      | ModSubclass new =>
          let '(w, r) := new (world s) in
          match r with
          | Raise e => (Raise e, set_world w s)
          | Return m =>
              match register_mod m (set_world w s) with
              | (Raise e, s1) => (Raise e, s1)
              | (Return _, s1) => load_objects rest s1
              end
          end
      | _ => load_objects rest s
      end
  end.

(** The outer loop, over the files [get_py_files(fullpath)] gives. *)
Fixpoint load_files (files : list pyfile) (s : state) : result unit * state :=
  match files with
  | [] => (Return tt, s)
  | file :: rest =>
      let '(w, r) := file (world s) in
      match r with
      | Raise e => (Raise e, set_world w s)
      | Return objs =>
          match load_objects objs (set_world w s) with
          | (Raise e, s1) => (Raise e, s1)
          | (Return _, s1) => load_files rest s1
          end
      end
  end.

(** [load_mods_from_directory(fullpath)]; [files] is what
    [get_py_files(fullpath)] gives.  The line it prints first comes with the
    outcome.  ([temp_syspath] puts the import path back when the block is
    left; the import path is not part of the state.) *)
Definition load_mods_from_directory (fullpath : string) (files : list pyfile)
    (s : state) : string * (result unit * state) :=
  ("loading mods from: " +:+ fullpath, load_files files s).

(** What can be done to the registry, and a run of such steps. *)
Inductive op :=
| Register (m : Mod)
| Unregister (m : Mod)
| Trigger (event : Event) (args : Args)
| Load (fullpath : string) (files : list pyfile).

Definition step (o : op) (s : state) : state :=
  match o with
  | Register m => snd (register_mod m s)
  | Unregister m => snd (unregister_mod m s)
  | Trigger event args => snd (trigger_mod_event event args s)
  | Load fullpath files => snd (snd (load_mods_from_directory fullpath files s))
  end.

Definition run (ops : list op) (s : state) : state :=
  fold_left (fun s' o => step o s') ops s.

(** The registry holds each mod under its own name, and no name twice. *)
Definition registry_ok (s : state) : Prop :=
  Dict.wf (mods s) /\ Forall (fun kv => fst kv = name (snd kv)) (mods s).

(** The hook of the mod for the event, if it has one, never raises. *)
Definition never_raises (event : Event) (m : Mod) : Prop :=
  forall hook args w,
    attr m (value event) = Some hook -> snd (hook args w) = None.

End Mods.

Arguments Mod : clear implicits.
Arguments pyobj : clear implicits.
Arguments pyfile : clear implicits.
Arguments op : clear implicits.
Arguments state : clear implicits.
Arguments method : clear implicits.

End ModLoader.

(* ===================================================================== *)
(** ** twitchbot/builtin_commands/poll_commands.py                        *)
(* ===================================================================== *)

Module PollCommands.
Import Py.

(** [RE_POLL_INFO], piece by piece: group [title] is [.+]; an opening
    bracket; group [options] is one or more of [\w], [\d], [\s] and the
    comma; a closing bracket; [\s] any number of times; group [time] is any
    number of decimal digits and points. *)
Definition any_but_newline (c : ascii) : bool := negb (is_code 10 c).
Definition option_char (c : ascii) : bool :=
  is_word c || is_decimal c || is_space c || is_code 44 c.
Definition time_char (c : ascii) : bool := is_decimal c || is_code 46 c.
Definition open_bracket (c : ascii) : bool := is_code 91 c.
Definition close_bracket (c : ascii) : bool := is_code 93 c.

Definition RE_POLL_INFO : Re.regex :=
  Re.Cat (Re.Grp 1 (Re.Plus any_but_newline))
 (Re.Cat (Re.Chr open_bracket)
 (Re.Cat (Re.Grp 2 (Re.Plus option_char))
 (Re.Cat (Re.Chr close_bracket)
 (Re.Cat (Re.Star is_space)
         (Re.Grp 3 (Re.Star time_char)))))).

(** A text has a bracketed list of choices when an opening bracket, one or
    more characters of the choices and a closing bracket follow each other in
    it. *)
Definition has_bracketed_choices (text : string) : Prop :=
  exists before inside after,
    text = before +:+ "[" +:+ inside +:+ "]" +:+ after
    /\ inside <> EmptyString
    /\ all_chars option_char inside = true.

(** A blank or a comma. *)
Definition blank_or_comma (c : ascii) : bool := is_space c || is_code 44 c.

Definition no_open_bracket (text : string) : bool :=
  all_chars (fun c => negb (open_bracket c)) text.

Definition VOTE_PERMISSION : string := "vote".
Definition START_POLL_PERMISSION : string := "startpoll".
Definition LIST_POLLS_PERMISSION : string := "listpolls".
Definition POLL_INFO_PERMISSION : string := "pollinfo".

(** The double quote, for the texts that hold one. *)
Definition dquote : string := String "034"%char EmptyString.

(** Modelled from the spec: class [Message] is not among the sources.  A
    command invocation has a channel, an author and a raw text; [mention] is
    the text of [msg.mention], [tail] the text of [msg[1:]] (the message
    after the command word). *)
Record Message := {
  channel_name : string;
  author : string;
  mention : string;
  tail : string;
}.

(** Modelled from the spec: class [PollData] is not among the sources.  A
    poll has an id, a title, an ordered list of choices, a duration and a
    mapping from voter to chosen choice index; it belongs to a channel and
    has an owner. *)
Record PollData := {
  channel : string;
  owner : string;
  title : string;
  seconds : num;
  choices : list string;
  id : Z;
  votes : gmap string Z;
}.

(** Modelled from the spec: the constructor of [PollData], called with the
    channel, the owner, the title, the seconds and the choices.  It makes a
    poll without votes; [new_id] is the id the poll subsystem gives it. *)
Definition new_PollData (new_id : Z) (ch own ttl : string) (secs : num)
    (chs : list string) : PollData :=
  {| channel := ch; owner := own; title := ttl; seconds := secs;
     choices := chs; id := new_id; votes := ∅ |}.

(** Modelled from the spec: [poll.has_already_voted(user)], not among the
    sources, on the mapping from voter to choice: the user has an entry. *)
Definition has_already_voted (p : PollData) (user : string) : bool :=
  bool_decide (is_Some (votes p !! user)).

(** Modelled from the spec: [poll.add_vote(user, choice)], not among the
    sources: the choice is recorded for the user in the mapping. *)
Definition add_vote (p : PollData) (user : string) (choice : Z) : PollData :=
  {| channel := channel p; owner := owner p; title := title p;
     seconds := seconds p; choices := choices p; id := id p;
     votes := <[user := choice]> (votes p) |}.

(** What a handler acts on: the active polls in the order the poll subsystem
    lists them, the replies sent so far (channel and text), and what was
    printed.  A poll object is known by its place among the active polls. *)
Record bot := {
  polls : list PollData;
  replies : list (string * string);
  stdout : list (gmap string Z);
}.

(** Modelled from the spec: the lookup functions of the poll subsystem are
    not among the sources.  [get_active_channel_polls(channel)] lists the
    active polls of the channel, [get_active_channel_poll_count(channel)]
    counts them, [get_channel_poll_by_id(channel, id)] is the one among them
    with that id, if any.  Each poll comes with its place. *)
Definition get_active_channel_polls (b : bot) (ch : string)
    : list (nat * PollData) :=
  List.filter (fun ip => String.eqb (channel (snd ip)) ch)
              (imap pair (polls b)).

Definition get_active_channel_poll_count (b : bot) (ch : string) : Z :=
  Z.of_nat (length (get_active_channel_polls b ch)).

Definition get_channel_poll_by_id (b : bot) (ch : string) (poll_id : Z)
    : option (nat * PollData) :=
  List.find (fun ip => Z.eqb (id (snd ip)) poll_id)
            (get_active_channel_polls b ch).

(** Handlers: a state and error monad over [bot]. *)
Definition handler (A : Type) : Type := bot -> result A * bot.

Definition ret {A} (a : A) : handler A := fun b => (Return a, b).

Definition bind {A B} (c : handler A) (k : A -> handler B) : handler B :=
  fun b =>
    match c b with
    | (Return a, b1) => k a b1
    | (Raise e, b1) => (Raise e, b1)
    end.

Definition raise {A} (e : exc) : handler A := fun b => (Raise e, b).

Definition get : handler bot := fun b => (Return b, b).

Notation "x <-- c ;; k" := (bind c (fun x => k))
  (at level 100, c at next level, right associativity).
Notation "c ;;; k" := (bind c (fun _ => k))
  (at level 100, right associativity).

(** [await msg.reply(text)] *)
Definition reply (msg : Message) (text : string) : handler unit :=
  fun b =>
    (Return tt,
     {| polls := polls b; replies := replies b ++ [(channel_name msg, text)];
        stdout := stdout b |}).

(** [poll.add_vote(msg.author, choice)] on the poll at place [i]. *)
Definition poll_add_vote (i : nat) (user : string) (choice : Z) : handler unit :=
  fun b =>
    (Return tt,
     {| polls := match polls b !! i with
                 | Some p => <[i := add_vote p user choice]> (polls b)
                 | None => polls b
                 end;
        replies := replies b; stdout := stdout b |}).

(** [print(poll.votes)] for the poll at place [i]. *)
Definition print_votes (i : nat) : handler unit :=
  fun b =>
    (Return tt,
     {| polls := polls b; replies := replies b;
        stdout := stdout b ++ match polls b !! i with
                              | Some p => [votes p]
                              | None => []
                              end |}).

(** [_cast_to_int_or_error(value)] *)
Definition _cast_to_int_or_error (value : string) : result Z :=
  if negb (isdigit value)
  then Raise (InvalidArgumentsError (value +:+ " is not a valid number") None)
  else match int value with
       | Some n => Return n
       | None => Raise (ValueError value)
       end.

Definition lift {A} (r : result A) : handler A := fun b => (r, b).

(** [_try_parse_float(value, default)] *)
Definition _try_parse_float (value : string) (default : num) : num :=
  match float value with
  | Some x => x
  | None => default
  end.

(** [_parse_poll_data(msg)]; [new_id] is the id of the poll it makes. *)
Definition _parse_poll_data (new_id : Z) (msg : Message) : option PollData :=
  match Re.search RE_POLL_INFO (tail msg) with
  | None => None
  | Some m =>
      let title := strip (Re.group m 1) in
      let choices := map strip (split ","%char (Re.group m 2)) in
      let seconds :=
        if Nat.eqb (length m) 3 then _try_parse_float (Re.group m 3) (Int 30)
        else Int 30 in
      Some (new_PollData new_id (channel_name msg) (author msg) title seconds
                         choices)
  end.

Section Commands.

(** [prefix] is [cfg.prefix].  The rest of class [PollData] that the
    handlers call and the sources do not have: [is_valid_vote(choice)],
    [format_choices()] and the text of [seconds_left]. *)
Variable prefix : string.
Variable is_valid_vote : PollData -> Z -> bool.
Variable format_choices : PollData -> string.
Variable seconds_left : PollData -> string.

(** [cmd_vote], from [if not poll.is_valid_vote(choice)] on; [choice] is
    the integer, [poll] the poll and its place. *)
Definition vote_choice (msg : Message) (choice : Z) (poll : nat * PollData)
    : handler unit :=
  if negb (is_valid_vote (snd poll) choice)
  then reply msg (str_of_int choice +:+ " is not a valid choice id for poll#"
                  +:+ str_of_int (id (snd poll)) +:+ ", choices are: "
                  +:+ format_choices (snd poll))
  else if has_already_voted (snd poll) (author msg)
  then ret tt
  else poll_add_vote (fst poll) (author msg) choice ;;;
       print_votes (fst poll).

(** [cmd_vote], from [if not choice.isdigit()] on: what both branches of the
    choice of the poll continue with. *)
Definition vote_on (msg : Message) (choice : string) (poll : nat * PollData)
    : handler unit :=
  if negb (isdigit choice)
  then raise (InvalidArgumentsError (choice +:+ " is not a valid number")
                                    (Some "vote"))
  else match int choice with
       | None => raise (ValueError choice)
       | Some n => vote_choice msg n poll
       end.

(** [cmd_vote(msg, *args)] *)
Definition cmd_vote (msg : Message) (args : list string) : handler unit :=
  match args with
  | [] =>
      raise (InvalidArgumentsError
        "missing required vote arguments, must provide the id of the choice you want to vote for"
        (Some "vote"))
  | choice :: _ =>
      b <-- get ;;
      let count := get_active_channel_poll_count b (channel_name msg) in
      if count =? 0
      then reply msg "there are NOT any active polls running right now to vote for"
      else if count =? 1
      then match get_active_channel_polls b (channel_name msg) with
           | poll :: _ => vote_on msg choice poll
           | [] => raise IndexError
           end
      else if negb (Nat.eqb (length args) 2)
      then reply msg (mention msg
             +:+ " there are multiple polls active, please specify the poll id, example: "
             +:+ prefix +:+ "vote " +:+ choice +:+ " <POLL_ID>")
      else
        passed_poll_id <-- lift (_cast_to_int_or_error (nth 1 args EmptyString)) ;;
        match get_channel_poll_by_id b (channel_name msg) passed_poll_id with
        | None =>
            raise (InvalidArgumentsError
                     ("Could not find poll by ID " +:+ str_of_int passed_poll_id)
                     (Some "vote"))
        | Some poll => vote_on msg choice poll
        end
  end.

(** [cmd_list_polls(msg, *args)] *)
Definition cmd_list_polls (msg : Message) (args : list string) : handler unit :=
  b <-- get ;;
  reply msg
    (join " | "
       (map (fun poll => str_of_int (id (snd poll)) +:+ " -> " +:+ dquote
                           +:+ title (snd poll) +:+ dquote)
            (get_active_channel_polls b (channel_name msg)))).

(** [cmd_poll_info], its last line: the reply about the poll found. *)
Definition poll_info_text (poll : PollData) : string :=
  "POLL INFO #" +:+ str_of_int (id poll) +:+ " - title: " +:+ dquote
  +:+ title poll +:+ dquote +:+ " - choices: " +:+ format_choices poll
  +:+ " - seconds left: " +:+ seconds_left poll.

(** [cmd_poll_info(msg, *args)] *)
Definition cmd_poll_info (msg : Message) (args : list string) : handler unit :=
  b <-- get ;;
  let count := get_active_channel_poll_count b (channel_name msg) in
  if count =? 0
  then reply msg "there are not any polls active right now"
  else if (count >? 1) && Nat.eqb (length args) 0
  then raise (InvalidArgumentsError
         ("multiple polls are running, the poll id is required to be passed, example: "
          +:+ prefix +:+ "pollinfo <POLL_ID>")
         (Some "pollinfo"))
  else if count =? 1
  then match get_active_channel_polls b (channel_name msg) with
       | poll :: _ => reply msg (poll_info_text (snd poll))
       | [] => raise IndexError
       end
  else
    match args with
    | [] => raise IndexError
    | arg0 :: _ =>
        if negb (isdigit arg0)
        then raise (InvalidArgumentsError (arg0 +:+ " is not valid number")
                                          (Some "pollinfo"))
        else match int arg0 with
        | None => raise (ValueError arg0)
        | Some n =>
            match get_channel_poll_by_id b (channel_name msg) n with
            | None =>
                raise (InvalidArgumentsError
                         ("could not find any poll by ID " +:+ arg0)
                         (Some "pollinfo"))
            | Some poll => reply msg (poll_info_text (snd poll))
            end
        end
    end.

(** [cmd_start_poll(msg, *args)].  Of class [PollData], not among the
    sources, it needs the id a new poll gets, [next_poll_id], and what
    [poll.start()] does, [poll_start]. *)
Variable next_poll_id : bot -> Z.
Variable poll_start : PollData -> handler unit.

Definition cmd_start_poll (msg : Message) (args : list string) : handler unit :=
  if (length args <? 2)%nat
  then raise (InvalidArgumentsError "missing required poll arguments"
                                    (Some "startpoll"))
  else
    b <-- get ;;
    match _parse_poll_data (next_poll_id b) msg with
    | None =>
        raise (InvalidArgumentsError
          ("your poll commands seems to be improperly formatted, example: "
           +:+ prefix
           +:+ "startpoll what should i eat? [apples, oranges, potatos]")
          (Some "startpoll"))
    | Some poll => poll_start poll
    end.

(** How a handler settles which poll it is about: it goes on with a poll,
    or replies to the user and returns, or raises. *)
Inductive resolution :=
| Target (poll : nat * PollData)
| Reply (text : string)
| Error (e : exc).

(** The lines of [cmd_vote] that settle the poll, up to
    [if not choice.isdigit()]. *)
Definition vote_resolution (msg : Message) (args : list string) (b : bot)
    : resolution :=
  match args with
  | [] =>
      Error (InvalidArgumentsError
        "missing required vote arguments, must provide the id of the choice you want to vote for"
        (Some "vote"))
  | choice :: _ =>
      let count := get_active_channel_poll_count b (channel_name msg) in
      if count =? 0
      then Reply "there are NOT any active polls running right now to vote for"
      else if count =? 1
      then match get_active_channel_polls b (channel_name msg) with
           | poll :: _ => Target poll
           | [] => Error IndexError
           end
      else if negb (Nat.eqb (length args) 2)
      then Reply (mention msg
             +:+ " there are multiple polls active, please specify the poll id, example: "
             +:+ prefix +:+ "vote " +:+ choice +:+ " <POLL_ID>")
      else
        match _cast_to_int_or_error (nth 1 args EmptyString) with
        | Raise e => Error e
        | Return passed_poll_id =>
            match get_channel_poll_by_id b (channel_name msg) passed_poll_id with
            | None =>
                Error (InvalidArgumentsError
                         ("Could not find poll by ID " +:+ str_of_int passed_poll_id)
                         (Some "vote"))
            | Some poll => Target poll
            end
        end
  end.

(** The lines of [cmd_poll_info] that settle the poll, up to the reply about
    the poll found. *)
Definition poll_info_resolution (msg : Message) (args : list string) (b : bot)
    : resolution :=
  let count := get_active_channel_poll_count b (channel_name msg) in
  if count =? 0
  then Reply "there are not any polls active right now"
  else if (count >? 1) && Nat.eqb (length args) 0
  then Error (InvalidArgumentsError
         ("multiple polls are running, the poll id is required to be passed, example: "
          +:+ prefix +:+ "pollinfo <POLL_ID>")
         (Some "pollinfo"))
  else if count =? 1
  then match get_active_channel_polls b (channel_name msg) with
       | poll :: _ => Target poll
       | [] => Error IndexError
       end
  else
    match args with
    | [] => Error IndexError
    | arg0 :: _ =>
        if negb (isdigit arg0)
        then Error (InvalidArgumentsError (arg0 +:+ " is not valid number")
                                          (Some "pollinfo"))
        else match int arg0 with
        | None => Error (ValueError arg0)
        | Some n =>
            match get_channel_poll_by_id b (channel_name msg) n with
            | None =>
                Error (InvalidArgumentsError
                         ("could not find any poll by ID " +:+ arg0)
                         (Some "pollinfo"))
            | Some poll => Target poll
            end
        end
    end.

End Commands.

(** The kinds of outcome: the same poll targeted, a reply to the user, the
    invalid-arguments error, or another exception of the same class. *)
Definition same_exc_kind (e1 e2 : exc) : bool :=
  match e1, e2 with
  | InvalidArgumentsError _ _, InvalidArgumentsError _ _ => true
  | ValueError _, ValueError _ => true
  | IndexError, IndexError => true
  | UserException t1 _, UserException t2 _ => String.eqb t1 t2
  | BaseExceptionOnly t1 _, BaseExceptionOnly t2 _ => String.eqb t1 t2
  | _, _ => false
  end.

Definition same_kind (r1 r2 : resolution) : bool :=
  match r1, r2 with
  | Target p1, Target p2 => Nat.eqb (fst p1) (fst p2)
  | Reply _, Reply _ => true
  | Error e1, Error e2 => same_exc_kind e1 e2
  | _, _ => false
  end.

Definition is_invalid_arguments {A} (r : result A) : bool :=
  match r with
  | Raise (InvalidArgumentsError _ _) => true
  | _ => false
  end.

(** A string of decimal digits, at least one. *)
Definition decimal_string (s : string) : bool :=
  negb (is_empty s) && all_chars is_decimal s.

(** The text [cmd_list_polls] sends for the polls [ps]: nothing for no poll,
    the entry of a single poll, and for more the entry of the first, the
    bar, and the text for the others. *)
Definition poll_entry (p : PollData) : string :=
  str_of_int (id p) +:+ " -> " +:+ dquote +:+ title p +:+ dquote.

Fixpoint listing (ps : list PollData) : string :=
  match ps with
  | [] => EmptyString
  | p :: ps' =>
      match ps' with
      | [] => poll_entry p
      | _ :: _ => poll_entry p +:+ " | " +:+ listing ps'
      end
  end.

End PollCommands.


(* ===================================================================== *)
(** ** Sample mods, polls and messages                                    *)
(* ===================================================================== *)

Module Samples.
Import Py.

(** Mods over a world that counts the calls that went through, with hooks
    that take no argument. *)
Definition quiet : ModLoader.method nat := fun w => (S w, None).
Definition failing : ModLoader.method nat :=
  fun w => (w, Some (UserException "RuntimeError" "boom")).

Definition mod_a : ModLoader.Mod nat unit :=
  {| ModLoader.name := "a"; ModLoader.can_register := true;
     ModLoader.can_unregister := true;
     ModLoader.register := quiet; ModLoader.unregister := quiet;
     ModLoader.attr := fun n =>
       if String.eqb n "on_connected" then Some (fun _ => failing) else None |}.

Definition mod_b : ModLoader.Mod nat unit :=
  {| ModLoader.name := "b"; ModLoader.can_register := true;
     ModLoader.can_unregister := true;
     ModLoader.register := quiet; ModLoader.unregister := quiet;
     ModLoader.attr := fun n =>
       if String.eqb n "on_connected" then Some (fun _ => quiet) else None |}.

(** A mod without any hook. *)
Definition mod_c : ModLoader.Mod nat unit :=
  {| ModLoader.name := "c"; ModLoader.can_register := true;
     ModLoader.can_unregister := true;
     ModLoader.register := quiet; ModLoader.unregister := quiet;
     ModLoader.attr := fun _ => None |}.

Definition no_mods : ModLoader.state nat unit :=
  {| ModLoader.mods := []; ModLoader.world := 0%nat; ModLoader.calls := [];
     ModLoader.printed := [] |}.

Definition three_mods : ModLoader.state nat unit :=
  {| ModLoader.mods := [("a", mod_a); ("c", mod_c); ("b", mod_b)];
     ModLoader.world := 0%nat; ModLoader.calls := [];
     ModLoader.printed := [] |}.

(** The superscript two, U+00B2: a digit for [isdigit], no decimal digit. *)
Definition superscript_two : string := String (ascii_of_N 178) EmptyString.

(** Two channels, three active polls; choices are numbered from 1. *)
Definition msg_bob : PollCommands.Message :=
  {| PollCommands.channel_name := "chan"; PollCommands.author := "bob";
     PollCommands.mention := "@bob";
     PollCommands.tail := "eat pizza [cheese, pepperoni] 60" |}.

Definition msg_solo : PollCommands.Message :=
  {| PollCommands.channel_name := "solo"; PollCommands.author := "bob";
     PollCommands.mention := "@bob"; PollCommands.tail := "1" |}.

Definition msg_idle : PollCommands.Message :=
  {| PollCommands.channel_name := "idle"; PollCommands.author := "bob";
     PollCommands.mention := "@bob"; PollCommands.tail := EmptyString |}.

Definition msg_no_duration : PollCommands.Message :=
  {| PollCommands.channel_name := "chan"; PollCommands.author := "bob";
     PollCommands.mention := "@bob";
     PollCommands.tail := "what should i eat? [apples, oranges, potatos]" |}.

Definition msg_no_choices : PollCommands.Message :=
  {| PollCommands.channel_name := "chan"; PollCommands.author := "bob";
     PollCommands.mention := "@bob";
     PollCommands.tail := "what should i eat? 60" |}.

Definition poll1 : PollCommands.PollData :=
  PollCommands.new_PollData 1 "chan" "al" "lunch" (Int 30) ["soup"; "rice"].
Definition poll2 : PollCommands.PollData :=
  PollCommands.new_PollData 2 "solo" "al" "game" (Int 30) ["chess"; "go"].
Definition poll3 : PollCommands.PollData :=
  PollCommands.new_PollData 3 "chan" "al" "drink" (Int 30) ["tea"; "water"].

Definition three_polls : PollCommands.bot :=
  {| PollCommands.polls := [poll1; poll2; poll3];
     PollCommands.replies := []; PollCommands.stdout := [] |}.

(** The same polls after bob voted for rice. *)
Definition bob_voted : PollCommands.bot :=
  {| PollCommands.polls :=
       [PollCommands.add_vote poll1 "bob" 2; poll2; poll3];
     PollCommands.replies := []; PollCommands.stdout := [] |}.

Definition in_range_vote (p : PollCommands.PollData) (c : Z) : bool :=
  (1 <=? c) && (c <=? Z.of_nat (length (PollCommands.choices p))).

Definition comma_choices (p : PollCommands.PollData) : string :=
  join ", " (PollCommands.choices p).

Definition ten_seconds (p : PollCommands.PollData) : string := "10".

End Samples.

Module MoreSamples.
Import Py.

(** A second mod that calls itself [a]. *)
Definition mod_a_again : ModLoader.Mod nat unit :=
  {| ModLoader.name := "a"; ModLoader.can_register := true;
     ModLoader.can_unregister := true;
     ModLoader.register := Samples.quiet; ModLoader.unregister := Samples.quiet;
     ModLoader.attr := fun _ => None |}.

(** A mod that says it cannot be unregistered, and another of the same name
    that says it can. *)
Definition pinned : ModLoader.Mod nat unit :=
  {| ModLoader.name := "p"; ModLoader.can_register := true;
     ModLoader.can_unregister := false;
     ModLoader.register := Samples.quiet; ModLoader.unregister := Samples.quiet;
     ModLoader.attr := fun _ => None |}.

Definition loose : ModLoader.Mod nat unit :=
  {| ModLoader.name := "p"; ModLoader.can_register := true;
     ModLoader.can_unregister := true;
     ModLoader.register := Samples.quiet;
     ModLoader.unregister := fun w => ((w + 10)%nat, None);
     ModLoader.attr := fun _ => None |}.

Definition pinned_registry : ModLoader.state nat unit :=
  {| ModLoader.mods := [("p", pinned)]; ModLoader.world := 0%nat;
     ModLoader.calls := []; ModLoader.printed := [] |}.

(** A mod whose hook is interrupted from the keyboard. *)
Definition interrupted : ModLoader.method nat :=
  fun w => (w, Some (BaseExceptionOnly "KeyboardInterrupt" EmptyString)).

Definition mod_k : ModLoader.Mod nat unit :=
  {| ModLoader.name := "k"; ModLoader.can_register := true;
     ModLoader.can_unregister := true;
     ModLoader.register := Samples.quiet; ModLoader.unregister := Samples.quiet;
     ModLoader.attr := fun n =>
       if String.eqb n "on_connected" then Some (fun _ => interrupted)
       else None |}.

Definition interrupted_registry : ModLoader.state nat unit :=
  {| ModLoader.mods :=
       [("b", Samples.mod_b); ("k", mod_k); ("a", Samples.mod_a)];
     ModLoader.world := 0%nat; ModLoader.calls := [];
     ModLoader.printed := [] |}.

Definition quiet_registry : ModLoader.state nat unit :=
  {| ModLoader.mods := [("b", Samples.mod_b); ("c", Samples.mod_c)];
     ModLoader.world := 0%nat; ModLoader.calls := [];
     ModLoader.printed := [] |}.

Definition one_mod : ModLoader.state nat unit :=
  {| ModLoader.mods := [("a", Samples.mod_a)]; ModLoader.world := 0%nat;
     ModLoader.calls := []; ModLoader.printed := [] |}.


(** A directory of one file with a function, the class [Mod] and two
    classes deriving from it. *)
Definition sample_file : ModLoader.pyfile nat unit :=
  fun w =>
    (w, Return [ModLoader.NotAClass; ModLoader.TheModClass;
                ModLoader.ModSubclass (fun w' => (w', Return Samples.mod_b));
                ModLoader.ModSubclass (fun w' => (w', Return Samples.mod_c))]).

Definition sample_run : list (ModLoader.op nat unit) :=
  [ModLoader.Register Samples.mod_a;
   ModLoader.Load "mods" [sample_file];
   ModLoader.Register mod_a_again;
   ModLoader.Trigger ModLoader.on_connected tt;
   ModLoader.Unregister Samples.mod_a].

(** Messages for the parser. *)
Definition msg_half : PollCommands.Message :=
  {| PollCommands.channel_name := "chan"; PollCommands.author := "bob";
     PollCommands.mention := "@bob";
     PollCommands.tail := "eat pizza [cheese, pepperoni] 1.5" |}.

Definition msg_blank : PollCommands.Message :=
  {| PollCommands.channel_name := "chan"; PollCommands.author := "bob";
     PollCommands.mention := "@bob";
     PollCommands.tail := " [ , ] " |}.

(** A poll subsystem that numbers the polls from 1 and whose [start] puts
    the poll with the active ones. *)
Definition next_id (b : PollCommands.bot) : Z :=
  Z.of_nat (S (length (PollCommands.polls b))).

Definition start_poll (p : PollCommands.PollData) : PollCommands.handler unit :=
  fun b =>
    (Return tt,
     {| PollCommands.polls := PollCommands.polls b ++ [p];
        PollCommands.replies := PollCommands.replies b;
        PollCommands.stdout := PollCommands.stdout b |}).

End MoreSamples.
(* ===================================================================== *)
(** * Properties                                                          *)
(* ===================================================================== *)

(** ** Facts about [dict] *)

Module DictFacts.
Import Dict.

Section Facts.
Context {V : Type}.
Implicit Types (d : dict V) (k : string) (v : V).

Lemma contains_get k d : contains k d = true <-> is_Some (get k d).
Proof.
  unfold contains. destruct (get k d); split; intros H; eauto.
  - discriminate.
  - destruct H; discriminate.
Qed.

Lemma contains_keys k d : contains k d = true <-> In k (keys d).
Proof.
  unfold contains. induction d as [|[k' v'] d IH]; simpl.
  - split; [discriminate | tauto].
  - destruct (String.eqb_spec k' k) as [->|Hne].
    + split; auto.
    + rewrite IH. split; [tauto | intros [?|?]; [congruence | assumption]].
Qed.

Lemma get_set_eq k v d : get k (set k v d) = Some v.
Proof.
  induction d as [|[k' v'] d IH]; simpl.
  - now rewrite String.eqb_refl.
  - destruct (String.eqb_spec k' k) as [->|Hne]; simpl.
    + now rewrite String.eqb_refl.
    + destruct (String.eqb_spec k' k); [congruence | exact IH].
Qed.

Lemma get_set_ne k k' v d : k' <> k -> get k' (set k v d) = get k' d.
Proof.
  intros Hne. induction d as [|[k0 v0] d IH]; simpl.
  - destruct (String.eqb_spec k k'); [congruence | reflexivity].
  - destruct (String.eqb_spec k0 k) as [->|Hk]; simpl.
    + destruct (String.eqb_spec k k'); [congruence | reflexivity].
    + destruct (String.eqb_spec k0 k'); [reflexivity | exact IH].
Qed.

(** A new key goes last: the entries before it keep their order. *)
Lemma set_fresh k v d : contains k d = false -> set k v d = d ++ [(k, v)].
Proof.
  unfold contains. induction d as [|[k' v'] d IH]; simpl; [reflexivity|].
  destruct (String.eqb_spec k' k); [discriminate|].
  intros H. now rewrite IH.
Qed.

Lemma keys_set_fresh k v d :
  contains k d = false -> keys (set k v d) = keys d ++ [k].
Proof.
  intros H. rewrite set_fresh by assumption. unfold keys.
  now rewrite map_app.
Qed.

Lemma get_not_in k d : ~ In k (keys d) -> get k d = None.
Proof.
  intros H. destruct (get k d) eqn:E; [|reflexivity].
  exfalso. apply H, contains_keys, contains_get. rewrite E. eauto.
Qed.

Lemma keys_del_incl k k' d : In k' (keys (del k d)) -> In k' (keys d).
Proof.
  induction d as [|[k0 v0] d IH]; simpl; [tauto|].
  destruct (String.eqb_spec k0 k); simpl; tauto.
Qed.

Lemma get_del_eq k d : wf d -> get k (del k d) = None.
Proof.
  unfold wf. induction d as [|[k' v'] d IH]; simpl; [reflexivity|].
  intros Hnd. apply NoDup_cons_iff in Hnd as [Hnotin Hnd].
  destruct (String.eqb_spec k' k) as [->|Hne]; simpl.
  - now apply get_not_in.
  - destruct (String.eqb_spec k' k); [congruence | auto].
Qed.

Lemma get_del_ne k k' d : k' <> k -> get k' (del k d) = get k' d.
Proof.
  intros Hne. induction d as [|[k0 v0] d IH]; simpl; [reflexivity|].
  destruct (String.eqb_spec k0 k) as [->|Hk]; simpl.
  - destruct (String.eqb_spec k k'); [congruence | reflexivity].
  - destruct (String.eqb_spec k0 k'); [reflexivity | exact IH].
Qed.

Lemma length_del k d :
  contains k d = true -> S (length (del k d)) = length d.
Proof.
  unfold contains. induction d as [|[k' v'] d IH]; simpl; [discriminate|].
  destruct (String.eqb_spec k' k); simpl; [reflexivity|].
  intros H. now rewrite IH.
Qed.

Lemma wf_set k v d : wf d -> wf (set k v d).
Proof.
  unfold wf. destruct (contains k d) eqn:E.
  - intros H. replace (keys (set k v d)) with (keys d); [assumption|].
    clear H. unfold contains in E.
    induction d as [|[k' v'] d IH]; simpl in *; [discriminate|].
    destruct (String.eqb_spec k' k); simpl; [reflexivity|].
    f_equal. auto.
  - intros H. rewrite keys_set_fresh by assumption.
    apply List.NoDup_app; [assumption | repeat constructor; simpl; tauto |].
    intros x Hx [<-|[]]. apply contains_keys in Hx. congruence.
Qed.

Lemma wf_del k d : wf d -> wf (del k d).
Proof.
  unfold wf. induction d as [|[k' v'] d IH]; simpl; [auto|].
  intros Hnd. apply NoDup_cons_iff in Hnd as [Hnotin Hnd].
  destruct (String.eqb_spec k' k); simpl; [assumption|].
  apply NoDup_cons_iff. split; [|auto].
  intros Hin. apply Hnotin. now apply keys_del_incl in Hin.
Qed.

End Facts.
End DictFacts.

(** ** Facts about strings and about the matcher *)

Module StringFacts.
Import Py.

Lemma app_cons c (a b : string) : String c a +:+ b = String c (a +:+ b).
Proof. reflexivity. Qed.

Lemma app_nil_l (a : string) : EmptyString +:+ a = a.
Proof. reflexivity. Qed.

Lemma app_assoc (a b c : string) : (a +:+ b) +:+ c = a +:+ b +:+ c.
Proof.
  induction a as [|x a IH]; [reflexivity|].
  change (String x ((a +:+ b) +:+ c) = String x (a +:+ b +:+ c)).
  f_equal. exact IH.
Qed.

Lemma app_nil_r (a : string) : a +:+ EmptyString = a.
Proof.
  induction a as [|x a IH]; [reflexivity|].
  change (String x (a +:+ EmptyString) = String x a). f_equal. exact IH.
Qed.

Lemma length_app (a b : string) :
  String.length (a +:+ b) = (String.length a + String.length b)%nat.
Proof.
  induction a as [|x a IH]; [reflexivity|].
  change (S (String.length (a +:+ b))
          = S (String.length a + String.length b)).
  f_equal. exact IH.
Qed.

Lemma substring_prefix (w rest : string) :
  String.substring 0 (String.length w) (w +:+ rest) = w.
Proof.
  induction w as [|x w IH].
  - destruct rest; reflexivity.
  - rewrite app_cons. simpl. now rewrite IH.
Qed.

Lemma all_chars_app p (a b : string) :
  all_chars p (a +:+ b) = all_chars p a && all_chars p b.
Proof.
  induction a as [|x a IH]; [reflexivity|].
  rewrite app_cons. simpl. now rewrite IH, andb_assoc.
Qed.

Lemma take_drop_while p s : s = take_while p s +:+ drop_while p s.
Proof.
  induction s as [|c s IH]; simpl; [reflexivity|].
  destruct (p c); [rewrite app_cons; f_equal; exact IH | reflexivity].
Qed.

Lemma all_chars_take_while p s : all_chars p (take_while p s) = true.
Proof.
  induction s as [|c s IH]; simpl; [reflexivity|].
  destruct (p c) eqn:E; simpl; [now rewrite E | reflexivity].
Qed.

(** What [drop_while] leaves does not start with a character of the class. *)
Lemma drop_while_stops p s : starts_in p (drop_while p s) = false.
Proof.
  induction s as [|c s IH]; simpl; [reflexivity|].
  destruct (p c) eqn:E; simpl; [exact IH | exact E].
Qed.

Lemma lstrip_drop_while s : lstrip s = drop_while is_space s.
Proof. induction s as [|c s IH]; simpl; [reflexivity | now rewrite IH]. Qed.

Lemma cut_at_dot_app s :
  s = fst (cut_at_dot s) +:+
      match snd (cut_at_dot s) with
      | Some f => "." +:+ f
      | None => EmptyString
      end.
Proof.
  induction s as [|c s IH]; simpl; [reflexivity|].
  destruct (is_code 46 c) eqn:E.
  - simpl. unfold is_code, code in E. apply N.eqb_eq in E.
    rewrite <- (ascii_N_embedding c), E. reflexivity.
  - destruct (cut_at_dot s) as [a b]. simpl in *.
    rewrite app_cons. f_equal. exact IH.
Qed.

Lemma digits_value_no_decimal acc s :
  no_decimal s = true -> s <> EmptyString -> digits_value acc s = None.
Proof.
  destruct s as [|c s]; [congruence|]. unfold no_decimal. simpl.
  intros [Hc _]%andb_true_iff _. apply negb_true_iff in Hc. now rewrite Hc.
Qed.

Lemma float_no_decimal s : no_decimal s = true -> float s = None.
Proof.
  intros H. unfold float. pose proof (cut_at_dot_app s) as Hs.
  destruct (cut_at_dot s) as [ip fp]. simpl in Hs.
  destruct (is_empty ip && is_empty match fp with Some f => f | None => EmptyString end)
    eqn:E; [reflexivity|].
  rewrite digits_value_no_decimal; [reflexivity | |].
  - rewrite Hs in H. unfold no_decimal in *. destruct fp as [f|].
    + rewrite !all_chars_app in *.
      apply andb_true_iff in H as [-> [_ ->]%andb_true_iff]. reflexivity.
    + rewrite app_nil_r in H. rewrite all_chars_app, H. reflexivity.
  - intros Hnil. destruct ip; [|discriminate Hnil].
    rewrite app_nil_l in Hnil. rewrite Hnil in E. discriminate.
Qed.

End StringFacts.

Module ReFacts.
Import Py Re StringFacts.

Lemma consumed_app (w rest : string) : consumed (w +:+ rest) rest = w.
Proof.
  unfold consumed. rewrite length_app.
  replace (String.length w + String.length rest - String.length rest)%nat
    with (String.length w) by lia.
  apply substring_prefix.
Qed.

Section Star.
Context {A : Type}.
Implicit Types (k : string -> option A) (cls : ascii -> bool).

(** Whatever [C*] followed by [k] finds, [k] found it after a run of
    characters of the class. *)
Lemma star_match_sound cls s k r :
  star_match cls s k = Some r ->
  exists w rest, s = w +:+ rest /\ all_chars cls w = true /\ k rest = Some r.
Proof.
  induction s as [|c s IH]; simpl.
  - intros H. exists EmptyString, EmptyString. auto.
  - destruct (cls c) eqn:Hc.
    + destruct (star_match cls s k) as [r'|] eqn:E.
      * intros [= <-]. destruct (IH eq_refl) as (w & rest & -> & Hw & Hk).
        exists (String c w), rest. simpl. rewrite Hc. auto.
      * intros H. exists EmptyString, (String c s). auto.
    + intros H. exists EmptyString, (String c s). auto.
Qed.

(** [C*] is greedy: when [k] takes what follows the run [w] and takes
    nothing that follows a longer run, that is what [C*] followed by [k]
    finds. *)
Lemma star_match_longest cls w rest k r :
  all_chars cls w = true ->
  (forall more rest', rest = more +:+ rest' -> more <> EmptyString ->
     all_chars cls more = true -> k rest' = None) ->
  k rest = Some r ->
  star_match cls (w +:+ rest) k = Some r.
Proof.
  intros Hw Hlonger Hk. induction w as [|c w IH]; simpl.
  - clear Hw. revert Hlonger Hk. induction rest as [|c rest IH]; intros Hl Hk.
    + exact Hk.
    + simpl. destruct (cls c) eqn:Hc; [|exact Hk].
      assert (Hnone : star_match cls rest k = None).
      { destruct (star_match cls rest k) as [r'|] eqn:E; [|reflexivity].
        apply star_match_sound in E as (more & rest' & -> & Hmore & Hk').
        rewrite (Hl (String c more) rest') in Hk'; [discriminate| | |].
        - reflexivity.
        - discriminate.
        - simpl. now rewrite Hc. }
      now rewrite Hnone.
  - simpl in Hw. apply andb_true_iff in Hw as [-> Hw]. now rewrite IH.
Qed.

(** A run that stops where the class stops is the longest. *)
Lemma star_match_run cls w rest k r :
  all_chars cls w = true ->
  starts_in cls rest = false ->
  k rest = Some r ->
  star_match cls (w +:+ rest) k = Some r.
Proof.
  intros Hw Hstop Hk. apply star_match_longest; try assumption.
  intros more rest' -> Hne Hmore. destruct more as [|c more]; [congruence|].
  simpl in *. apply andb_true_iff in Hmore as [Hc _]. congruence.
Qed.

End Star.

(** The matcher finds nothing but matches: what it hands to the rest of the
    pattern is what is left after a string of the pattern. *)
Lemma rmatch_sound {A} r : forall s g (k : string -> captures -> option A) a,
  rmatch r s g k = Some a ->
  exists w rest g', s = w +:+ rest /\ lang r w /\ k rest g' = Some a.
Proof.
  induction r as [cls|cls|r1 IH1 r2 IH2|i r1 IH1]; intros s g k a; simpl.
  - destruct s as [|c s]; [discriminate|].
    destruct (cls c) eqn:Hc; [|discriminate].
    intros H. exists (String c EmptyString), s, g. eauto.
  - intros (w & rest & -> & Hw & Hk)%star_match_sound.
    exists w, rest, g. auto.
  - intros (w1 & rest1 & g1 & -> & H1 & H)%IH1.
    apply IH2 in H as (w2 & rest2 & g2 & -> & H2 & H).
    exists (w1 +:+ w2), rest2, g2. rewrite app_assoc. eauto 7.
  - intros (w & rest & g' & -> & Hw & Hk)%IH1. eauto 7.
Qed.

Lemma search_sound r s g :
  search r s = Some g ->
  exists before w after, s = before +:+ w +:+ after /\ lang r w.
Proof.
  induction s as [|c s IH]; simpl.
  - destruct (match_at r EmptyString) as [g'|] eqn:E; [|discriminate].
    intros _. unfold match_at in E.
    apply rmatch_sound in E as (w & rest & _ & Hs & Hw & _).
    exists EmptyString, w, rest. auto.
  - destruct (match_at r (String c s)) as [g'|] eqn:E.
    + intros _. unfold match_at in E.
      apply rmatch_sound in E as (w & rest & _ & Hs & Hw & _).
      exists EmptyString, w, rest. auto.
    + intros (before & w & after & -> & Hw)%IH.
      exists (String c before), w, after. auto.
Qed.

(** A match at the front is the match [search] returns. *)
Lemma search_at_front r s g : match_at r s = Some g -> search r s = Some g.
Proof. intros H. destruct s; simpl; now rewrite H. Qed.

(** *** Captures *)

Lemma occurs_in_refl w : occurs_in w w.
Proof. exists EmptyString, EmptyString. now rewrite app_nil_l, app_nil_r. Qed.

Lemma occurs_in_app_l u w1 w2 : occurs_in u w1 -> occurs_in u (w1 +:+ w2).
Proof.
  intros (a & b & ->). exists a, (b +:+ w2). now rewrite !app_assoc.
Qed.

Lemma occurs_in_app_r u w1 w2 : occurs_in u w2 -> occurs_in u (w1 +:+ w2).
Proof.
  intros (a & b & ->). exists (w1 +:+ a), b. now rewrite !app_assoc.
Qed.

Lemma all_chars_occurs p u w :
  occurs_in u w -> all_chars p w = true -> all_chars p u = true.
Proof.
  intros (a & b & ->). rewrite !all_chars_app.
  intros [_ [H _]%andb_true_iff]%andb_true_iff. exact H.
Qed.

(** The matcher with its captures: a group that the match went through
    holds a piece of the matched text. *)
Lemma rmatch_captures {A} r : forall s g (k : string -> captures -> option A) a,
  rmatch r s g k = Some a ->
  exists w rest g',
    s = w +:+ rest /\ lang r w /\ captured_in g g' w /\ k rest g' = Some a.
Proof.
  induction r as [cls|cls|r1 IH1 r2 IH2|i r1 IH1]; intros s g k a; simpl.
  - destruct s as [|c s]; [discriminate|].
    destruct (cls c) eqn:Hc; [|discriminate].
    intros H. exists (String c EmptyString), s, g.
    repeat split; eauto.
  - intros (w & rest & -> & Hw & Hk)%star_match_sound.
    exists w, rest, g. repeat split; auto.
  - intros (w1 & rest1 & g1 & -> & H1 & [Hl1 Hg1] & H)%IH1.
    apply IH2 in H as (w2 & rest2 & g2 & -> & H2 & [Hl2 Hg2] & H).
    exists (w1 +:+ w2), rest2, g2. rewrite app_assoc.
    split; [reflexivity|]. split; [eauto|]. split; [|assumption].
    split; [congruence|]. intros j.
    destruct (Hg2 j) as [E2|(u & E2 & Hu)].
    + destruct (Hg1 j) as [E1|(u & E1 & Hu)].
      * left. congruence.
      * right. exists u. split; [congruence | now apply occurs_in_app_l].
    + right. exists u. split; [assumption | now apply occurs_in_app_r].
  - intros (w & rest & g' & -> & Hw & [Hl Hg] & Hk)%IH1.
    exists w, rest, (<[Nat.pred i := Some (consumed (w +:+ rest) rest)]> g').
    split; [reflexivity|]. split; [assumption|]. split; [|assumption].
    split; [now rewrite length_insert|]. intros j.
    destruct (decide (j = Nat.pred i)) as [->|Hne].
    + destruct (decide (Nat.pred i < length g')%nat) as [Hlt|Hge].
      * right. exists w. rewrite list_lookup_insert_eq by assumption.
        rewrite consumed_app. split; [reflexivity | apply occurs_in_refl].
      * rewrite list_insert_ge by lia. apply Hg.
    + rewrite list_lookup_insert_ne by congruence. apply Hg.
Qed.

Lemma search_captures r s g :
  search r s = Some g ->
  length g = ngroups r
  /\ forall j, g !! j = replicate (ngroups r) None !! j
            \/ exists u, g !! j = Some (Some u) /\ occurs_in u s.
Proof.
  induction s as [|c s IH]; simpl.
  - destruct (match_at r EmptyString) as [g'|] eqn:E; [|discriminate].
    intros [= ->]. unfold match_at in E.
    apply rmatch_captures in E as (w & rest & g' & Hs & _ & [Hl Hg] & [= ->]).
    split; [now rewrite Hl, length_replicate|].
    intros j. destruct (Hg j) as [H|(u & H & Hu)]; [now left|].
    right. exists u. split; [assumption|]. rewrite Hs.
    now apply occurs_in_app_l.
  - destruct (match_at r (String c s)) as [g'|] eqn:E.
    + intros [= ->]. unfold match_at in E.
      apply rmatch_captures in E as (w & rest & g' & Hs & _ & [Hl Hg] & [= ->]).
      split; [now rewrite Hl, length_replicate|].
      intros j. destruct (Hg j) as [H|(u & H & Hu)]; [now left|].
      right. exists u. split; [assumption|]. rewrite Hs.
      now apply occurs_in_app_l.
    + intros [Hl Hg]%IH. split; [assumption|].
      intros j. destruct (Hg j) as [H|(u & H & Hu)]; [now left|].
      right. exists u. split; [assumption|].
      now apply (occurs_in_app_r u (String c EmptyString) s).
Qed.

Lemma group_occurs r s g i :
  search r s = Some g ->
  group g i = EmptyString \/ occurs_in (group g i) s.
Proof.
  intros [_ Hg]%search_captures. unfold group.
  destruct (Hg (Nat.pred i)) as [H|(u & H & Hu)].
  - left. rewrite H. destruct (replicate (ngroups r) None !! Nat.pred i) as [o|] eqn:E;
      [|reflexivity].
    apply lookup_replicate in E as [-> _]. reflexivity.
  - right. now rewrite H.
Qed.

End ReFacts.

(** ** The mod registry and the event fan-out *)

Module ModLoaderSpec.
Import Py ModLoader.

Section Registry.
Context {World Args : Type}.
Implicit Types (m : Mod World Args) (s : state World Args).

(** Both operations keep the names of the registry distinct. *)
Lemma register_mod_wf m s :
  Dict.wf (mods s) -> Dict.wf (mods (snd (register_mod m s))).
Proof.
  intros Hwf. unfold register_mod, invoke.
  destruct (Dict.contains (name m) (mods s) || negb (can_register m));
    [assumption|].
  simpl. destruct (register m (world s)) as [w [e|]]; simpl;
    now apply DictFacts.wf_set.
Qed.

Lemma unregister_mod_wf m s :
  Dict.wf (mods s) -> Dict.wf (mods (snd (unregister_mod m s))).
Proof.
  intros Hwf. unfold unregister_mod, invoke.
  destruct (negb (can_unregister m)); [assumption|].
  destruct (Dict.contains (name m) (mods s)); [|assumption].
  simpl. destruct (unregister m (world s)) as [w [e|]]; simpl;
    now apply DictFacts.wf_del.
Qed.

(** C1.  When the name of the mod is already a key of the registry, or the
    mod cannot be registered, [register_mod] returns [False] and leaves the
    registry, the world and the list of calls as they were: the [register]
    callback is not called.  Otherwise the mod is put in the registry under
    its name (last, the other entries untouched), its [register] callback is
    called once, and [register_mod] returns [True] (an exception that the
    callback itself raises goes on to the caller, after the insertion). *)
Theorem register_mod_spec m s :
  (Dict.contains (name m) (mods s) = true \/ can_register m = false ->
   register_mod m s = (Return false, s))
  /\
  (Dict.contains (name m) (mods s) = false -> can_register m = true ->
   register_mod m s =
     (match snd (register m (world s)) with
      | None => Return true
      | Some e => Raise e
      end,
      {| mods := Dict.set (name m) m (mods s);
         world := fst (register m (world s));
         calls := calls s ++ [RegisterCall (name m)];
         printed := printed s |})
   /\ Dict.set (name m) m (mods s) = mods s ++ [(name m, m)]
   /\ Dict.get (name m) (Dict.set (name m) m (mods s)) = Some m
   /\ (forall k, k <> name m ->
         Dict.get k (Dict.set (name m) m (mods s)) = Dict.get k (mods s))).
Proof.
  split.
  - intros H. unfold register_mod.
    destruct H as [-> | ->]; [reflexivity | now rewrite orb_true_r].
  - intros Hc Hr. repeat split.
    + unfold register_mod, invoke. rewrite Hc, Hr. simpl.
      destruct (register m (world s)) as [w [e|]]; reflexivity.
    + now apply DictFacts.set_fresh.
    + apply DictFacts.get_set_eq.
    + intros k Hk. now apply DictFacts.get_set_ne.
Qed.

(** C2.  A mod that cannot be unregistered: [unregister_mod] returns
    [False], nothing changes.  A mod that can be and whose name is a key of
    the registry: the entry is removed, the [unregister] callback is called
    once, and [unregister_mod] returns [True] (an exception that the callback
    itself raises goes on to the caller, after the removal).  A mod that can
    be and whose name is not a key: [False], nothing changes. *)
Theorem unregister_mod_spec m s :
  (can_unregister m = false -> unregister_mod m s = (Return false, s))
  /\
  (can_unregister m = true -> Dict.contains (name m) (mods s) = true ->
   unregister_mod m s =
     (match snd (unregister m (world s)) with
      | None => Return true
      | Some e => Raise e
      end,
      {| mods := Dict.del (name m) (mods s);
         world := fst (unregister m (world s));
         calls := calls s ++ [UnregisterCall (name m)];
         printed := printed s |})
   /\ S (length (Dict.del (name m) (mods s))) = length (mods s)
   /\ (Dict.wf (mods s) ->
       Dict.contains (name m) (Dict.del (name m) (mods s)) = false)
   /\ (forall k, k <> name m ->
         Dict.get k (Dict.del (name m) (mods s)) = Dict.get k (mods s)))
  /\
  (can_unregister m = true -> Dict.contains (name m) (mods s) = false ->
   unregister_mod m s = (Return false, s)).
Proof.
  split; [|split].
  - intros H. unfold unregister_mod. now rewrite H.
  - intros Hu Hc. repeat split.
    + unfold unregister_mod, invoke. rewrite Hu, Hc. simpl.
      destruct (unregister m (world s)) as [w [e|]]; reflexivity.
    + now apply DictFacts.length_del.
    + intros Hwf. unfold Dict.contains.
      now rewrite DictFacts.get_del_eq.
    + intros k Hk. now apply DictFacts.get_del_ne.
  - intros Hu Hc. unfold unregister_mod. now rewrite Hu, Hc.
Qed.

(** One mod of the round, when its hook raises nothing but instances of
    [Exception]: the round goes on, the registry is as it was, and the call
    is the one [hook_calls] lists. *)
Lemma trigger_one_contained event (args : Args) m s :
  raises_only_Exception event m ->
  exists s1,
    trigger_one event args m s = (Return tt, s1)
    /\ mods s1 = mods s
    /\ calls s1 = calls s ++ hook_calls event [m].
Proof.
  intros Hm. unfold trigger_one, hook_calls, invoke, _missing_function. simpl.
  destruct (attr m (value event)) as [hook|] eqn:Hattr.
  - destruct (hook args (world s)) as [w [e|]] eqn:Hrun; simpl.
    + rewrite (Hm hook args (world s) e Hattr) by now rewrite Hrun.
      eexists; split; [reflexivity|]. simpl. now rewrite ?app_nil_r.
    + eexists; split; [reflexivity|]. simpl. now rewrite ?app_nil_r.
  - eexists; split; [reflexivity|]. simpl. now rewrite ?app_nil_r.
Qed.

Lemma trigger_loop_contained event (args : Args) ms :
  Forall (raises_only_Exception event) ms ->
  forall s, exists s1,
    trigger_loop event args ms s = (Return tt, s1)
    /\ mods s1 = mods s
    /\ calls s1 = calls s ++ hook_calls event ms.
Proof.
  induction 1 as [|m ms Hm Hms IH]; intros s; simpl.
  - exists s. now rewrite app_nil_r.
  - destruct (trigger_one_contained event args m s Hm) as (s1 & -> & Hmods & Hcalls).
    destruct (IH s1) as (s2 & -> & Hmods2 & Hcalls2).
    exists s2. repeat split; [congruence|].
    rewrite Hcalls2, Hcalls. unfold hook_calls. simpl.
    now rewrite !app_nil_r, app_assoc.
Qed.

(** An exception that is not an instance of [Exception] is not taken by
    [except Exception]: it ends the round and reaches the caller. *)
Lemma trigger_one_base_exception event (args : Args) m s hook e :
  attr m (value event) = Some hook ->
  snd (hook args (world s)) = Some e ->
  is_Exception e = false ->
  fst (trigger_one event args m s) = Raise e.
Proof.
  intros Hattr Hrun He. unfold trigger_one, invoke. rewrite Hattr.
  destruct (hook args (world s)) as [w r]. simpl in Hrun. subst r.
  now rewrite He.
Qed.

(** C3.  For every registry, event and arguments: when a hook raises an
    exception (an instance of [Exception]), [trigger_mod_event] takes it,
    prints the report and goes on with the mods that follow; the round ends
    without an exception for the caller, and the hooks of all the mods that
    have one were called, in the order of the registry.  A mod without the
    hook changes nothing. *)
Theorem trigger_mod_event_isolates event (args : Args) s :
  (Forall (raises_only_Exception event) (Dict.values (mods s)) ->
   fst (trigger_mod_event event args s) = Return tt
   /\ mods (snd (trigger_mod_event event args s)) = mods s
   /\ calls (snd (trigger_mod_event event args s))
      = calls s ++ hook_calls event (Dict.values (mods s)))
  /\
  (forall m rest hook e s0,
     attr m (value event) = Some hook ->
     snd (hook args (world s0)) = Some e ->
     is_Exception e = true ->
     trigger_loop event args (m :: rest) s0
     = trigger_loop event args rest
         {| mods := mods s0;
            world := fst (hook args (world s0));
            calls := calls s0 ++ [HookCall (name m) event];
            printed := printed s0 ++ [{| report_mod := name m;
                                         report_event := event;
                                         report_error := e |}] |})
  /\
  (forall m rest s0,
     attr m (value event) = None ->
     trigger_loop event args (m :: rest) s0 = trigger_loop event args rest s0).
Proof.
  split; [|split].
  - intros H. unfold trigger_mod_event.
    destruct (trigger_loop_contained event args _ H s) as (s1 & -> & ? & ?).
    auto.
  - intros m rest hook e s0 Hattr Hrun He. simpl.
    unfold trigger_one, invoke. rewrite Hattr.
    destruct (hook args (world s0)) as [w r]. simpl in *. subst r.
    now rewrite He.
  - intros m rest s0 Hattr. simpl.
    unfold trigger_one, _missing_function. rewrite Hattr.
    destruct s0; reflexivity.
Qed.

End Registry.

Lemma register_mod_spec_witness :
  register_mod Samples.mod_a Samples.no_mods
  = (Return true,
     {| mods := [("a", Samples.mod_a)]; world := 1%nat;
        calls := [RegisterCall "a"]; printed := [] |}).
Proof.
  destruct (register_mod_spec Samples.mod_a Samples.no_mods) as [_ H].
  destruct (H eq_refl eq_refl) as [Hrun _]. exact Hrun.
Defined.

Lemma unregister_mod_spec_witness :
  unregister_mod Samples.mod_c Samples.three_mods
  = (Return true,
     {| mods := [("a", Samples.mod_a); ("b", Samples.mod_b)]; world := 1%nat;
        calls := [UnregisterCall "c"]; printed := [] |}).
Proof.
  destruct (unregister_mod_spec Samples.mod_c Samples.three_mods) as (_ & H & _).
  destruct (H eq_refl eq_refl) as [Hrun _]. exact Hrun.
Defined.

Lemma samples_raise_only_Exception :
  Forall (raises_only_Exception on_connected)
         (Dict.values (mods Samples.three_mods)).
Proof.
  repeat constructor; intros hook args w e Hattr Hrun; simpl in Hattr;
    inversion Hattr; subst hook; simpl in Hrun; inversion Hrun; reflexivity.
Defined.

Lemma trigger_mod_event_isolates_witness :
  fst (trigger_mod_event on_connected tt Samples.three_mods) = Return tt
  /\ calls (snd (trigger_mod_event on_connected tt Samples.three_mods))
     = [HookCall "a" on_connected; HookCall "b" on_connected].
Proof.
  destruct (trigger_mod_event_isolates on_connected tt Samples.three_mods)
    as [H _].
  destruct (H samples_raise_only_Exception) as (Hret & _ & Hcalls).
  split; [exact Hret | exact Hcalls].
Defined.

End ModLoaderSpec.

(** ** The poll commands *)

Module PollCommandsSpec.
Import Py PollCommands.

(** *** Digits *)

Lemma is_decimal_is_digit c : is_decimal c = true -> is_digit c = true.
Proof. unfold is_digit. now intros ->. Qed.

Lemma all_decimal_all_digit s :
  all_chars is_decimal s = true -> all_chars is_digit s = true.
Proof.
  induction s as [|c s IH]; simpl; [reflexivity|].
  intros [Hc Hs]%andb_true_iff. now rewrite (is_decimal_is_digit c Hc), IH.
Qed.

Lemma digits_value_Some acc s :
  all_chars is_decimal s = true -> exists n, digits_value acc s = Some n.
Proof.
  revert acc. induction s as [|c s IH]; simpl; intros acc.
  - eauto.
  - intros [-> Hs]%andb_true_iff. apply IH, Hs.
Qed.

Lemma digits_value_decimal acc s n :
  digits_value acc s = Some n -> all_chars is_decimal s = true.
Proof.
  revert acc. induction s as [|c s IH]; simpl; intros acc; [reflexivity|].
  destruct (is_decimal c); [|discriminate]. intros H. simpl. eauto.
Qed.

Lemma digits_value_nonneg acc s n :
  0 <= acc -> digits_value acc s = Some n -> 0 <= n.
Proof.
  revert acc. induction s as [|c s IH]; simpl; intros acc Hacc.
  - intros [= <-]. exact Hacc.
  - destruct (is_decimal c) eqn:Hc; [|discriminate].
    apply IH. unfold is_decimal, in_range in Hc.
    apply andb_true_iff in Hc as [Hlo _]. apply N.leb_le in Hlo. lia.
Qed.

(** [int] reads exactly the strings of decimal digits. *)
Lemma int_decimal s : decimal_string s = true <-> exists n, int s = Some n.
Proof.
  unfold decimal_string, int. destruct s as [|c s]; simpl.
  - split; [discriminate | intros [n [=]]].
  - split.
    + intros H. apply (digits_value_Some 0 (String c s)), H.
    + intros [n H]. apply (digits_value_decimal 0 (String c s) n), H.
Qed.

Lemma decimal_isdigit s : decimal_string s = true -> isdigit s = true.
Proof.
  unfold decimal_string, isdigit.
  intros [-> H]%andb_true_iff. simpl. now apply all_decimal_all_digit.
Qed.

Lemma not_isdigit_not_decimal s : isdigit s = false -> decimal_string s = false.
Proof.
  intros H. destruct (decimal_string s) eqn:E; [|reflexivity].
  apply decimal_isdigit in E. congruence.
Qed.

(** [int] reads back what [str] writes: the two are the decimal notation. *)
Lemma digits_value_uint_acc d : forall acc,
  digits_value (Z.pos acc) (NilEmpty.string_of_uint d)
  = Some (Z.pos (Pos.of_uint_acc d acc)).
Proof.
  induction d; intros acc; cbn [NilEmpty.string_of_uint Pos.of_uint_acc];
    [reflexivity | ..];
    cbn [digits_value];
    match goal with
    | |- context [is_decimal ?c] =>
        replace (is_decimal c) with true by reflexivity
    end;
    match goal with
    | |- digits_value ?a _ = Some (Z.pos (Pos.of_uint_acc _ ?b)) =>
        replace a with (Z.pos b) by (vm_compute (Z.of_N _); lia)
    end; apply IHd.
Qed.

Lemma digits_value_uint d :
  digits_value 0 (NilEmpty.string_of_uint d) = Some (Z.of_N (Pos.of_uint d)).
Proof.
  induction d; cbn [NilEmpty.string_of_uint Pos.of_uint];
    [reflexivity | exact IHd | ..];
    cbn [digits_value];
    match goal with
    | |- context [is_decimal ?c] =>
        replace (is_decimal c) with true by reflexivity
    end;
    match goal with
    | |- digits_value ?a _ = Some (Z.of_N (N.pos (Pos.of_uint_acc _ ?b))) =>
        replace a with (Z.pos b) by (vm_compute; reflexivity)
    end; apply digits_value_uint_acc.
Qed.

Lemma int_str_of_int n : 0 <= n -> int (str_of_int n) = Some n.
Proof.
  intros Hn. destruct n as [|p|p]; [reflexivity | | lia].
  unfold str_of_int, int. cbn [Z.to_int NilZero.string_of_int].
  pose proof (DecimalPos.Unsigned.of_to p) as Hof.
  pose proof (digits_value_uint (Pos.to_uint p)) as Hd.
  rewrite Hof in Hd.
  destruct (Pos.to_uint p) eqn:E; [discriminate Hof | ..]; exact Hd.
Qed.

(** *** The active polls of a channel *)

Lemma active_poll_lookup b ch i p :
  In (i, p) (get_active_channel_polls b ch) -> polls b !! i = Some p.
Proof.
  unfold get_active_channel_polls. intros [Hin _]%filter_In.
  apply list_elem_of_In, elem_of_lookup_imap in Hin as (j & q & [= -> ->] & H).
  exact H.
Qed.

Lemma poll_by_id_lookup b ch n i p :
  get_channel_poll_by_id b ch n = Some (i, p) -> polls b !! i = Some p.
Proof.
  unfold get_channel_poll_by_id. intros [Hin _]%find_some.
  eapply active_poll_lookup, Hin.
Qed.

Lemma count_zero b ch :
  get_active_channel_poll_count b ch = 0 <-> get_active_channel_polls b ch = [].
Proof.
  unfold get_active_channel_poll_count.
  destruct (get_active_channel_polls b ch); simpl; split;
    try reflexivity; try discriminate; lia.
Qed.

Lemma count_one b ch :
  get_active_channel_poll_count b ch = 1
  <-> exists poll, get_active_channel_polls b ch = [poll].
Proof.
  unfold get_active_channel_poll_count.
  destruct (get_active_channel_polls b ch) as [|p [|q l]]; simpl; split.
  - lia.
  - intros [? [=]].
  - eauto.
  - reflexivity.
  - lia.
  - intros [? [=]].
Qed.

Ltac count_cases :=
  repeat match goal with
  | |- context [Z.eqb ?a ?b] =>
      destruct (Z.eqb_spec a b) as [?Hcount|?Hcount]; try lia
  | |- context [Z.gtb ?a ?b] => rewrite (Z.gtb_ltb a b)
  | |- context [Z.ltb ?a ?b] =>
      destruct (Z.ltb_spec a b) as [?Hcount|?Hcount]; try lia
  end.

(** *** The pattern of a poll *)

Section Pattern.
Import Re StringFacts ReFacts.

Ltac all_ascii c :=
  destruct c as [[] [] [] [] [] [] [] []]; vm_compute;
  try reflexivity; try discriminate.

Lemma option_char_not_open c : option_char c = true -> open_bracket c = false.
Proof. all_ascii c. Qed.

Lemma open_bracket_char c : open_bracket c = true -> c = "["%char.
Proof. all_ascii c. Qed.

Lemma close_bracket_char c : close_bracket c = true -> c = "]"%char.
Proof. all_ascii c. Qed.

Lemma consumed_take_while p s : consumed s (drop_while p s) = take_while p s.
Proof.
  pose proof (consumed_app (take_while p s) (drop_while p s)) as H.
  now rewrite <- take_drop_while in H.
Qed.

(** The end of the pattern, [(?P<time>[0-9.]* )]: group 3 is the longest run
    of digits and points. *)
Lemma match_time s g :
  rmatch (Grp 3 (Star time_char)) s g (fun _ g' => Some g')
  = Some (<[2%nat := Some (take_while time_char s)]> g).
Proof.
  cbn [rmatch Nat.pred].
  pose proof (star_match_run time_char (take_while time_char s)
                (drop_while time_char s)
                (fun s' => Some (<[2%nat := Some (consumed s s')]> g))
                (<[2%nat := Some (take_while time_char s)]> g)) as H.
  rewrite <- take_drop_while in H. apply H.
  - apply all_chars_take_while.
  - apply drop_while_stops.
  - now rewrite consumed_take_while.
Qed.

(** The blanks before it are skipped. *)
Lemma match_blanks_time s g :
  rmatch (Cat (Star is_space) (Grp 3 (Star time_char))) s g
         (fun _ g' => Some g')
  = Some (<[2%nat := Some (take_while time_char (lstrip s))]> g).
Proof.
  cbn [rmatch Nat.pred].
  pose proof (star_match_run is_space (take_while is_space s)
                (drop_while is_space s)
                (fun s1 => rmatch (Grp 3 (Star time_char)) s1 g
                             (fun _ g' => Some g'))
                (<[2%nat := Some (take_while time_char (lstrip s))]> g)) as H.
  rewrite <- take_drop_while in H. apply H.
  - apply all_chars_take_while.
  - apply drop_while_stops.
  - rewrite match_time. now rewrite lstrip_drop_while.
Qed.

(** The choices up to the closing bracket: group 2 is all of them. *)
Lemma match_options d o1 after g :
  option_char d = true -> all_chars option_char o1 = true ->
  rmatch (Cat (Grp 2 (Plus option_char))
         (Cat (Chr close_bracket)
         (Cat (Star is_space) (Grp 3 (Star time_char)))))
         (String d o1 +:+ "]" +:+ after) g (fun _ g' => Some g')
  = Some (<[2%nat := Some (take_while time_char (lstrip after))]>
            (<[1%nat := Some (String d o1)]> g)).
Proof.
  intros Hd Ho. unfold Plus. cbn [rmatch Nat.pred].
  rewrite app_cons, Hd.
  apply star_match_run; [assumption | reflexivity |].
  change ("]" +:+ after) with (String "]"%char after).
  cbv beta. replace (close_bracket "]"%char) with true by reflexivity.
  cbv iota.
  pose proof (match_blanks_time after
    (<[1%nat := Some (consumed (String d (o1 +:+ String "]" after))
                               (String "]" after))]> g)) as H.
  etransitivity; [exact H|].
  pose proof (consumed_app (String d o1) (String "]" after)) as Hc.
  rewrite app_cons in Hc. now rewrite Hc.
Qed.

Lemma option_chars_no_open s :
  all_chars option_char s = true -> no_open_bracket s = true.
Proof.
  unfold no_open_bracket. induction s as [|c s IH]; simpl; [reflexivity|].
  intros [Hc Hs]%andb_true_iff.
  now rewrite (option_char_not_open c Hc), IH.
Qed.

Lemma no_open_suffix more rest :
  no_open_bracket (more +:+ rest) = true -> starts_in open_bracket rest = false.
Proof.
  unfold no_open_bracket. rewrite all_chars_app.
  intros [_ H]%andb_true_iff. destruct rest as [|c rest]; [reflexivity|].
  simpl in *. apply andb_true_iff in H as [H _].
  now apply negb_true_iff in H.
Qed.

(** The whole pattern on a title, a bracketed list of choices and a rest
    without a further opening bracket: [.+] gives back all it took beyond
    the title, since no bracket follows there. *)
Lemma match_poll_text c t1 d o1 after :
  any_but_newline c = true -> all_chars any_but_newline t1 = true ->
  option_char d = true -> all_chars option_char o1 = true ->
  no_open_bracket after = true ->
  match_at RE_POLL_INFO
    (String c t1 +:+ "[" +:+ String d o1 +:+ "]" +:+ after)
  = Some [Some (String c t1); Some (String d o1);
          Some (take_while time_char (lstrip after))].
Proof.
  intros Hc Ht Hd Ho Hafter.
  assert (Hinside : no_open_bracket (String d o1 +:+ "]" +:+ after) = true).
  { unfold no_open_bracket. rewrite !all_chars_app.
    fold (no_open_bracket (String d o1)). fold (no_open_bracket after).
    rewrite option_chars_no_open, Hafter; [reflexivity|].
    simpl. now rewrite Hd, Ho. }
  unfold match_at, RE_POLL_INFO, Plus.
  cbn [rmatch ngroups Nat.max Nat.pred replicate].
  rewrite app_cons, Hc.
  apply star_match_longest; [assumption | |].
  - intros more rest' Heq Hne Hmore. cbv beta.
    destruct more as [|m0 more]; [congruence|].
    change ("[" +:+ String d o1 +:+ "]" +:+ after)
      with (String "["%char (String d o1 +:+ "]" +:+ after)) in Heq.
    rewrite app_cons in Heq. injection Heq as _ Heq.
    assert (Hrest : no_open_bracket (more +:+ rest') = true)
      by (rewrite <- Heq; exact Hinside).
    apply no_open_suffix in Hrest.
    destruct rest' as [|x rest']; [reflexivity|].
    simpl in Hrest. now rewrite Hrest.
  - change ("[" +:+ String d o1 +:+ "]" +:+ after)
      with (String "["%char (String d o1 +:+ "]" +:+ after)).
    cbv beta. replace (open_bracket "["%char) with true by reflexivity.
    cbv iota.
    pose proof (match_options d o1 after
      (<[0%nat := Some (consumed
            (String c (t1 +:+ String "[" (String d o1 +:+ "]" +:+ after)))
            (String "[" (String d o1 +:+ "]" +:+ after)))]>
         [None; None; None]) Hd Ho) as H.
    etransitivity; [exact H|].
    pose proof (consumed_app (String c t1)
                  (String "[" (String d o1 +:+ "]" +:+ after))) as Hcons.
    rewrite app_cons in Hcons. now rewrite Hcons.
Qed.

(** What the pattern matches has a bracketed list of choices. *)
Lemma lang_poll_bracketed w :
  lang RE_POLL_INFO w ->
  exists before inside after,
    w = before +:+ "[" +:+ inside +:+ "]" +:+ after
    /\ inside <> EmptyString /\ all_chars option_char inside = true.
Proof.
  unfold RE_POLL_INFO, Plus. cbn [lang].
  intros (wt & r1 & -> & _ & wb & r2 & -> & (cb & -> & Hb)
          & wo & r3 & -> & (x & y & -> & (co & -> & Hco) & Hy)
          & wc & r4 & -> & (cc & -> & Hcc) & _).
  apply open_bracket_char in Hb. apply close_bracket_char in Hcc. subst.
  exists wt, (String co y), r4. repeat split.
  - discriminate.
  - simpl. now rewrite Hco, Hy.
Qed.

Lemma search_poll_bracketed text g :
  search RE_POLL_INFO text = Some g -> has_bracketed_choices text.
Proof.
  intros (before & w & after & -> & Hw)%search_sound.
  apply lang_poll_bracketed in Hw
    as (before' & inside & after' & -> & Hne & Hin).
  exists (before +:+ before'), inside, (after' +:+ after).
  split; [|auto]. now rewrite !app_assoc.
Qed.

Lemma no_open_not_bracketed text :
  no_open_bracket text = true -> ~ has_bracketed_choices text.
Proof.
  intros H (before & inside & after & -> & _).
  apply no_open_suffix in H. discriminate.
Qed.

(** A text without any decimal digit has no number to read the duration
    from. *)
Lemma parse_no_decimal new_id msg pd :
  no_decimal (tail msg) = true ->
  _parse_poll_data new_id msg = Some pd -> seconds pd = Int 30.
Proof.
  intros Hno. unfold _parse_poll_data.
  destruct (Re.search RE_POLL_INFO (tail msg)) as [g|] eqn:E; [|discriminate].
  intros [= <-]. cbn [seconds new_PollData].
  destruct (length g =? 3)%nat; [|reflexivity].
  unfold _try_parse_float. rewrite StringFacts.float_no_decimal; [reflexivity|].
  destruct (ReFacts.group_occurs _ _ _ 3 E) as [->|H]; [reflexivity|].
  eapply ReFacts.all_chars_occurs; eauto.
Qed.

End Pattern.

(** C7.  The parser on [eat pizza [cheese, pepperoni] 60] gives the title
    [eat pizza], the choices [cheese] and [pepperoni] and the duration 60.0.
    On a title, a bracketed list of choices and a rest in which no number
    follows (no digits or points after the blanks, or digits and points that
    are no number; no further bracket), it gives poll data with the duration
    30; on any text without a decimal digit, the poll data it gives, if any,
    have the duration 30; and 30 equals 30.0.  On a text without a bracketed
    list of choices, so on any text without an opening bracket, it gives no
    poll data. *)
Theorem parse_poll_data_spec :
  (forall new_id ch who at_who,
     _parse_poll_data new_id
       {| channel_name := ch; author := who; mention := at_who;
          tail := "eat pizza [cheese, pepperoni] 60" |}
     = Some (new_PollData new_id ch who "eat pizza" (Float (60 # 1))
                          ["cheese"; "pepperoni"]))
  /\
  (forall new_id msg t o after,
     tail msg = t +:+ "[" +:+ o +:+ "]" +:+ after ->
     t <> EmptyString -> all_chars any_but_newline t = true ->
     o <> EmptyString -> all_chars option_char o = true ->
     no_open_bracket after = true ->
     float (take_while time_char (lstrip after)) = None ->
     _parse_poll_data new_id msg
     = Some (new_PollData new_id (channel_name msg) (author msg) (strip t)
                          (Int 30) (map strip (split ","%char o))))
  /\
  (forall new_id msg pd,
     no_decimal (tail msg) = true ->
     _parse_poll_data new_id msg = Some pd -> seconds pd = Int 30)
  /\ num_eqb (Int 30) (Float (30 # 1)) = true
  /\
  (forall new_id msg,
     ~ has_bracketed_choices (tail msg) -> _parse_poll_data new_id msg = None)
  /\
  (forall new_id msg,
     no_open_bracket (tail msg) = true -> _parse_poll_data new_id msg = None).
Proof.
  assert (Hnone : forall new_id msg,
    ~ has_bracketed_choices (tail msg) -> _parse_poll_data new_id msg = None).
  { intros new_id msg Hno. unfold _parse_poll_data.
    destruct (Re.search RE_POLL_INFO (tail msg)) as [g|] eqn:E; [|reflexivity].
    exfalso. eapply Hno, search_poll_bracketed, E. }
  split; [|split; [|split; [|split; [|split]]]].
  - intros. reflexivity.
  - intros new_id msg t o after Htail Ht Hta Ho Hoa Hafter Hfloat.
    destruct t as [|c t1]; [congruence|]. destruct o as [|d o1]; [congruence|].
    simpl in Hta, Hoa.
    apply andb_true_iff in Hta as [Hc Ht1].
    apply andb_true_iff in Hoa as [Hd Ho1].
    unfold _parse_poll_data. rewrite Htail.
    rewrite (ReFacts.search_at_front _ _ _
               (match_poll_text c t1 d o1 after Hc Ht1 Hd Ho1 Hafter)).
    cbn [length Nat.eqb Re.group Nat.pred lookup list_lookup].
    unfold _try_parse_float. now rewrite Hfloat.
  - apply parse_no_decimal.
  - reflexivity.
  - exact Hnone.
  - intros new_id msg H. now apply Hnone, no_open_not_bracketed.
Qed.

Section Handlers.
Variable prefix : string.
Variable is_valid_vote : PollData -> Z -> bool.
Variable format_choices : PollData -> string.
Variable seconds_left : PollData -> string.

Abbreviation cmd_vote := (cmd_vote prefix is_valid_vote format_choices).
Abbreviation vote_on := (vote_on is_valid_vote format_choices).
Abbreviation vote_choice := (vote_choice is_valid_vote format_choices).
Abbreviation vote_resolution := (vote_resolution prefix).
Abbreviation cmd_poll_info := (cmd_poll_info prefix format_choices seconds_left).
Abbreviation poll_info_resolution := (poll_info_resolution prefix).
Abbreviation poll_info_text := (poll_info_text format_choices seconds_left).

(** [cmd_vote] is its choice of the poll followed by the vote on it. *)
Lemma cmd_vote_resolution msg choice rest b :
  cmd_vote msg (choice :: rest) b =
  match vote_resolution msg (choice :: rest) b with
  | Target poll => vote_on msg choice poll b
  | Reply text => reply msg text b
  | Error e => (Raise e, b)
  end.
Proof.
  unfold PollCommands.cmd_vote, PollCommands.vote_resolution, bind, get, lift, raise.
  destruct (get_active_channel_poll_count b (channel_name msg) =? 0);
    [reflexivity|].
  destruct (get_active_channel_poll_count b (channel_name msg) =? 1).
  { destruct (get_active_channel_polls b (channel_name msg)); reflexivity. }
  destruct (negb (length (choice :: rest) =? 2)%nat); [reflexivity|].
  destruct (_cast_to_int_or_error (nth 1 (choice :: rest) EmptyString));
    [|reflexivity].
  destruct (get_channel_poll_by_id b (channel_name msg) a); reflexivity.
Qed.

Lemma cmd_vote_no_args msg b :
  cmd_vote msg [] b =
  (Raise (InvalidArgumentsError
     "missing required vote arguments, must provide the id of the choice you want to vote for"
     (Some "vote")), b).
Proof. reflexivity. Qed.

(** [cmd_poll_info] is its choice of the poll followed by the reply. *)
Lemma cmd_poll_info_resolution msg args b :
  cmd_poll_info msg args b =
  match poll_info_resolution msg args b with
  | Target poll => reply msg (poll_info_text (snd poll)) b
  | Reply text => reply msg text b
  | Error e => (Raise e, b)
  end.
Proof.
  unfold PollCommands.cmd_poll_info, PollCommands.poll_info_resolution, bind, get, raise.
  destruct (get_active_channel_poll_count b (channel_name msg) =? 0);
    [reflexivity|].
  destruct ((get_active_channel_poll_count b (channel_name msg) >? 1)
            && (length args =? 0)%nat); [reflexivity|].
  destruct (get_active_channel_poll_count b (channel_name msg) =? 1).
  { destruct (get_active_channel_polls b (channel_name msg)); reflexivity. }
  destruct args as [|arg0 args]; [reflexivity|].
  destruct (negb (isdigit arg0)); [reflexivity|].
  destruct (int arg0) as [n|]; [|reflexivity].
  destruct (get_channel_poll_by_id b (channel_name msg) n); reflexivity.
Qed.

(** The vote on a poll, once the choice is an integer, never raises. *)
Lemma vote_choice_returns msg n poll b :
  fst (vote_choice msg n poll b) = Return tt.
Proof.
  unfold PollCommands.vote_choice, bind, ret, reply, poll_add_vote, print_votes.
  destruct (negb (is_valid_vote (snd poll) n)); [reflexivity|].
  destruct (has_already_voted (snd poll) (author msg)); reflexivity.
Qed.

Lemma vote_on_int msg choice n poll b :
  int choice = Some n -> vote_on msg choice poll b = vote_choice msg n poll b.
Proof.
  intros Hn. unfold PollCommands.vote_on.
  assert (Hd : decimal_string choice = true) by (apply int_decimal; eauto).
  now rewrite (decimal_isdigit _ Hd), Hn.
Qed.

Lemma vote_on_not_digit msg choice poll b :
  isdigit choice = false ->
  vote_on msg choice poll b =
  (Raise (InvalidArgumentsError (choice +:+ " is not a valid number")
                                (Some "vote")), b).
Proof. intros H. unfold PollCommands.vote_on. now rewrite H. Qed.

Lemma cast_not_digit v :
  isdigit v = false ->
  _cast_to_int_or_error v =
  Raise (InvalidArgumentsError (v +:+ " is not a valid number") None).
Proof. intros H. unfold _cast_to_int_or_error. now rewrite H. Qed.

Lemma cast_int v n : int v = Some n -> _cast_to_int_or_error v = Return n.
Proof.
  intros Hn. unfold _cast_to_int_or_error.
  assert (Hd : decimal_string v = true) by (apply int_decimal; eauto).
  now rewrite (decimal_isdigit _ Hd), Hn.
Qed.

(** A string that passes [isdigit] and is not made of decimal digits (it
    holds a superscript digit) is a [ValueError] of [int], not an
    [InvalidArgumentsError]. *)
Lemma cast_digit_not_decimal v :
  isdigit v = true -> decimal_string v = false ->
  _cast_to_int_or_error v = Raise (ValueError v).
Proof.
  intros Hd Hn. unfold _cast_to_int_or_error. rewrite Hd. simpl.
  destruct (int v) as [n|] eqn:E; [|reflexivity].
  assert (decimal_string v = true) by (apply int_decimal; eauto). congruence.
Qed.

Example superscript_two_is_value_error :
  isdigit Samples.superscript_two = true
  /\ _cast_to_int_or_error Samples.superscript_two
     = Raise (ValueError Samples.superscript_two).
Proof. split; reflexivity. Qed.

(** With several active polls and two arguments, [cmd_vote] settles the poll
    by the second argument. *)
Lemma vote_resolution_by_id msg choice pid b :
  1 < get_active_channel_poll_count b (channel_name msg) ->
  vote_resolution msg [choice; pid] b =
  match _cast_to_int_or_error pid with
  | Raise e => Error e
  | Return n =>
      match get_channel_poll_by_id b (channel_name msg) n with
      | Some poll => Target poll
      | None => Error (InvalidArgumentsError
                         ("Could not find poll by ID " +:+ str_of_int n)
                         (Some "vote"))
      end
  end.
Proof.
  intros Hc. unfold PollCommands.vote_resolution. count_cases. simpl.
  destruct (_cast_to_int_or_error pid) as [n|e]; [|reflexivity].
  destruct (get_channel_poll_by_id b (channel_name msg) n); reflexivity.
Qed.

(** With several active polls and anything but two arguments, [cmd_vote]
    asks for the poll id. *)
Lemma vote_resolution_asks msg choice rest b :
  1 < get_active_channel_poll_count b (channel_name msg) ->
  length rest <> 1%nat ->
  vote_resolution msg (choice :: rest) b =
  Reply (mention msg
         +:+ " there are multiple polls active, please specify the poll id, example: "
         +:+ prefix +:+ "vote " +:+ choice +:+ " <POLL_ID>").
Proof.
  intros Hc Hl. unfold PollCommands.vote_resolution. count_cases.
  destruct (Nat.eqb_spec (length (choice :: rest)) 2) as [E|E]; simpl in E;
    [lia | reflexivity].
Qed.

Lemma poll_info_resolution_by_id msg pid rest b :
  1 < get_active_channel_poll_count b (channel_name msg) ->
  poll_info_resolution msg (pid :: rest) b =
  if negb (isdigit pid)
  then Error (InvalidArgumentsError (pid +:+ " is not valid number")
                                    (Some "pollinfo"))
  else match int pid with
       | None => Error (ValueError pid)
       | Some n =>
           match get_channel_poll_by_id b (channel_name msg) n with
           | Some poll => Target poll
           | None => Error (InvalidArgumentsError
                              ("could not find any poll by ID " +:+ pid)
                              (Some "pollinfo"))
           end
       end.
Proof.
  intros Hc. unfold PollCommands.poll_info_resolution. count_cases. simpl.
  destruct (negb (isdigit pid)); [reflexivity|].
  destruct (int pid) as [n|]; [|reflexivity].
  destruct (get_channel_poll_by_id b (channel_name msg) n); reflexivity.
Qed.

Lemma poll_info_resolution_no_id msg b :
  1 < get_active_channel_poll_count b (channel_name msg) ->
  poll_info_resolution msg [] b =
  Error (InvalidArgumentsError
           ("multiple polls are running, the poll id is required to be passed, example: "
            +:+ prefix +:+ "pollinfo <POLL_ID>")
           (Some "pollinfo")).
Proof.
  intros Hc. unfold PollCommands.poll_info_resolution. count_cases.
  destruct (Z.ltb_spec 1 (get_active_channel_poll_count b (channel_name msg)));
    [reflexivity | lia].
Qed.

Lemma resolution_single msg choice rest args b poll :
  get_active_channel_polls b (channel_name msg) = [poll] ->
  vote_resolution msg (choice :: rest) b = Target poll
  /\ poll_info_resolution msg args b = Target poll.
Proof.
  intros H.
  unfold PollCommands.vote_resolution, PollCommands.poll_info_resolution,
    get_active_channel_poll_count.
  rewrite H. simpl. split; reflexivity.
Qed.

Lemma resolution_none msg choice rest args b :
  get_active_channel_polls b (channel_name msg) = [] ->
  vote_resolution msg (choice :: rest) b
  = Reply "there are NOT any active polls running right now to vote for"
  /\ poll_info_resolution msg args b
     = Reply "there are not any polls active right now".
Proof.
  intros H.
  unfold PollCommands.vote_resolution, PollCommands.poll_info_resolution,
    get_active_channel_poll_count.
  rewrite H. simpl. split; reflexivity.
Qed.

(** The poll a handler settles on is an active poll, at its place. *)
Lemma vote_resolution_lookup msg args b i p :
  vote_resolution msg args b = Target (i, p) -> polls b !! i = Some p.
Proof.
  unfold PollCommands.vote_resolution.
  destruct args as [|choice rest]; [discriminate|].
  destruct (get_active_channel_poll_count b (channel_name msg) =? 0);
    [discriminate|].
  destruct (get_active_channel_poll_count b (channel_name msg) =? 1).
  { destruct (get_active_channel_polls b (channel_name msg)) as [|q l] eqn:E;
      [discriminate|].
    intros [= ->]. apply (active_poll_lookup b (channel_name msg)).
    rewrite E. now left. }
  destruct (negb (length (choice :: rest) =? 2)%nat); [discriminate|].
  destruct (_cast_to_int_or_error (nth 1 (choice :: rest) EmptyString))
    as [k|e]; [|discriminate].
  destruct (get_channel_poll_by_id b (channel_name msg) k) as [q|] eqn:E;
    [|discriminate].
  intros [= ->]. eapply poll_by_id_lookup, E.
Qed.

Lemma poll_info_resolution_lookup msg args b i p :
  poll_info_resolution msg args b = Target (i, p) -> polls b !! i = Some p.
Proof.
  unfold PollCommands.poll_info_resolution.
  destruct (get_active_channel_poll_count b (channel_name msg) =? 0);
    [discriminate|].
  destruct ((get_active_channel_poll_count b (channel_name msg) >? 1)
            && (length args =? 0)%nat); [discriminate|].
  destruct (get_active_channel_poll_count b (channel_name msg) =? 1).
  { destruct (get_active_channel_polls b (channel_name msg)) as [|q l] eqn:E;
      [discriminate|].
    intros [= ->]. apply (active_poll_lookup b (channel_name msg)).
    rewrite E. now left. }
  destruct args as [|arg0 args]; [discriminate|].
  destruct (negb (isdigit arg0)); [discriminate|].
  destruct (int arg0) as [k|]; [|discriminate].
  destruct (get_channel_poll_by_id b (channel_name msg) k) as [q|] eqn:E;
    [|discriminate].
  intros [= ->]. eapply poll_by_id_lookup, E.
Qed.

(** C4.  A poll id or a choice id is taken and turned into an integer
    exactly when it is a string of decimal digits (at least one):
    [_cast_to_int_or_error] returns an integer for these strings and for no
    other; the vote handler goes on with the integer of such a choice id and
    returns normally only for such a choice id; with several active polls,
    the vote handler and the poll-info handler look the poll up by the
    integer of such a poll id.  A string that does not pass [isdigit], like
    [-1] and [1.5], is refused with the invalid-arguments error at each of
    the three places. *)
Theorem ids_are_digit_strings :
  (forall v n,
     _cast_to_int_or_error v = Return n
     <-> decimal_string v = true /\ int v = Some n)
  /\ (forall v,
        isdigit v = false ->
        _cast_to_int_or_error v =
        Raise (InvalidArgumentsError (v +:+ " is not a valid number") None))
  /\ (forall msg choice poll b,
        (fst (vote_on msg choice poll b) = Return tt
         <-> decimal_string choice = true)
        /\ (forall n, int choice = Some n ->
              vote_on msg choice poll b = vote_choice msg n poll b)
        /\ (isdigit choice = false ->
            vote_on msg choice poll b =
            (Raise (InvalidArgumentsError (choice +:+ " is not a valid number")
                                          (Some "vote")), b)))
  /\ (forall msg choice pid b,
        1 < get_active_channel_poll_count b (channel_name msg) ->
        (forall n, int pid = Some n ->
           vote_resolution msg [choice; pid] b =
           match get_channel_poll_by_id b (channel_name msg) n with
           | Some poll => Target poll
           | None => Error (InvalidArgumentsError
                              ("Could not find poll by ID " +:+ str_of_int n)
                              (Some "vote"))
           end)
        /\ (isdigit pid = false ->
            cmd_vote msg [choice; pid] b =
            (Raise (InvalidArgumentsError (pid +:+ " is not a valid number")
                                          None), b)))
  /\ (forall msg pid rest b,
        1 < get_active_channel_poll_count b (channel_name msg) ->
        (forall n, int pid = Some n ->
           poll_info_resolution msg (pid :: rest) b =
           match get_channel_poll_by_id b (channel_name msg) n with
           | Some poll => Target poll
           | None => Error (InvalidArgumentsError
                              ("could not find any poll by ID " +:+ pid)
                              (Some "pollinfo"))
           end)
        /\ (isdigit pid = false ->
            cmd_poll_info msg (pid :: rest) b =
            (Raise (InvalidArgumentsError (pid +:+ " is not valid number")
                                          (Some "pollinfo")), b)))
  /\ isdigit "-1" = false /\ isdigit "1.5" = false
  /\ decimal_string EmptyString = false.
Proof.
  split; [|split; [|split; [|split; [|split]]]].
  - intros v n. split.
    + intros H. unfold _cast_to_int_or_error in H.
      destruct (negb (isdigit v)); [discriminate|].
      destruct (int v) as [k|] eqn:E; [|discriminate].
      injection H as <-. split; [apply int_decimal; eauto | reflexivity].
    + intros [_ H]. now apply cast_int.
  - apply cast_not_digit.
  - intros msg choice poll b. split; [|split].
    + split.
      * intros H. destruct (decimal_string choice) eqn:E; [reflexivity|].
        exfalso. unfold PollCommands.vote_on in H.
        destruct (negb (isdigit choice)); [discriminate|].
        destruct (int choice) as [n|] eqn:En; [|discriminate].
        assert (decimal_string choice = true) by (apply int_decimal; eauto).
        congruence.
      * intros [n Hn]%int_decimal. rewrite (vote_on_int _ _ _ _ _ Hn).
        apply vote_choice_returns.
    + intros n Hn. now apply vote_on_int.
    + apply vote_on_not_digit.
  - intros msg choice pid b Hc. split.
    + intros n Hn. rewrite vote_resolution_by_id by assumption.
      now rewrite (cast_int _ _ Hn).
    + intros Hd. rewrite cmd_vote_resolution, vote_resolution_by_id by assumption.
      now rewrite (cast_not_digit _ Hd).
  - intros msg pid rest b Hc. split.
    + intros n Hn. rewrite poll_info_resolution_by_id by assumption.
      assert (Hd : decimal_string pid = true) by (apply int_decimal; eauto).
      now rewrite (decimal_isdigit _ Hd), Hn.
    + intros Hd. rewrite cmd_poll_info_resolution,
        poll_info_resolution_by_id by assumption.
      now rewrite Hd.
  - repeat split; reflexivity.
Qed.

(** C5, as the code has it.  In a channel with more than one active poll the
    vote handler wants two arguments, the choice id and the poll id.  Given a
    choice id and not exactly one argument after it (no poll id, or more
    than the poll id), it replies with the request for the poll id and
    returns: no error is raised.  Given a poll id that does not pass
    [isdigit], it raises the invalid-arguments error; given the id of no
    active poll of the channel, it raises the invalid-arguments error. *)
Theorem vote_needs_poll_id msg b :
  1 < get_active_channel_poll_count b (channel_name msg) ->
  (forall choice rest,
     length rest <> 1%nat ->
     cmd_vote msg (choice :: rest) b =
     reply msg (mention msg
        +:+ " there are multiple polls active, please specify the poll id, example: "
        +:+ prefix +:+ "vote " +:+ choice +:+ " <POLL_ID>") b)
  /\ (forall choice pid,
        isdigit pid = false ->
        cmd_vote msg [choice; pid] b =
        (Raise (InvalidArgumentsError (pid +:+ " is not a valid number") None),
         b))
  /\ (forall choice pid n,
        int pid = Some n ->
        get_channel_poll_by_id b (channel_name msg) n = None ->
        cmd_vote msg [choice; pid] b =
        (Raise (InvalidArgumentsError
                  ("Could not find poll by ID " +:+ str_of_int n)
                  (Some "vote")), b)).
Proof.
  intros Hc. split; [|split].
  - intros choice rest Hl.
    now rewrite cmd_vote_resolution, vote_resolution_asks.
  - intros choice pid Hd.
    rewrite cmd_vote_resolution, vote_resolution_by_id by assumption.
    now rewrite (cast_not_digit _ Hd).
  - intros choice pid n Hn Hnone.
    rewrite cmd_vote_resolution, vote_resolution_by_id by assumption.
    now rewrite (cast_int _ _ Hn), Hnone.
Qed.

(** C6.  When the poll that the vote handler settled on reports that the
    author has already voted (the choice id being a valid one), the handler
    returns and nothing changes: no vote is added, no reply is sent, no
    error is raised.  So after a vote that was recorded, a second vote of
    the same author on the same poll leaves the polls as they are, and the
    vote on record is the first one. *)
Theorem second_vote_is_silent msg choice rest b i p n :
  vote_resolution msg (choice :: rest) b = Target (i, p) ->
  polls b !! i = Some p ->
  int choice = Some n ->
  is_valid_vote p n = true ->
  (has_already_voted p (author msg) = true ->
   cmd_vote msg (choice :: rest) b = (Return tt, b))
  /\
  (has_already_voted p (author msg) = false ->
   let b1 := snd (cmd_vote msg (choice :: rest) b) in
   fst (cmd_vote msg (choice :: rest) b) = Return tt
   /\ polls b1 = <[i := add_vote p (author msg) n]> (polls b)
   /\ replies b1 = replies b
   /\ forall choice2 rest2 n2 p1,
        vote_resolution msg (choice2 :: rest2) b1 = Target (i, p1) ->
        int choice2 = Some n2 ->
        is_valid_vote p1 n2 = true ->
        cmd_vote msg (choice2 :: rest2) b1 = (Return tt, b1)
        /\ polls b1 !! i = Some p1
        /\ votes p1 !! author msg = Some n
        /\ votes p1 = <[author msg := n]> (votes p)).
Proof.
  intros Hres Hlook Hn Hvalid. split.
  - intros Hvoted.
    rewrite cmd_vote_resolution, Hres, (vote_on_int _ _ _ _ _ Hn).
    unfold PollCommands.vote_choice. simpl. now rewrite Hvalid, Hvoted.
  - intros Hnot.
    assert (Hrun : cmd_vote msg (choice :: rest) b =
      (Return tt,
       {| polls := <[i := add_vote p (author msg) n]> (polls b);
          replies := replies b;
          stdout := stdout b ++ [votes (add_vote p (author msg) n)] |})).
    { rewrite cmd_vote_resolution, Hres, (vote_on_int _ _ _ _ _ Hn).
      unfold PollCommands.vote_choice, bind, poll_add_vote, print_votes. simpl.
      rewrite Hvalid, Hnot. simpl. rewrite Hlook.
      rewrite list_lookup_insert_eq by (eapply lookup_lt_Some; eauto).
      reflexivity. }
    rewrite Hrun. cbn [fst snd polls replies].
    split; [reflexivity|]. split; [reflexivity|]. split; [reflexivity|].
    intros choice2 rest2 n2 p1 Hres2 Hn2 Hvalid2.
    pose proof (vote_resolution_lookup _ _ _ _ _ Hres2) as Hq.
    cbn [polls] in Hq.
    rewrite list_lookup_insert_eq in Hq by (eapply lookup_lt_Some; eauto).
    injection Hq as <-. repeat split.
    + rewrite cmd_vote_resolution, Hres2, (vote_on_int _ _ _ _ _ Hn2).
      unfold PollCommands.vote_choice. simpl. rewrite Hvalid2.
      unfold has_already_voted. simpl. rewrite lookup_insert_eq.
      rewrite bool_decide_eq_true_2 by eauto. reflexivity.
    + rewrite list_lookup_insert_eq by (eapply lookup_lt_Some; eauto).
      reflexivity.
    + simpl. apply lookup_insert_eq.
Qed.

(** C8, as the code has it.  With no active poll, with exactly one, and
    with several and exactly one argument for the poll id (an id that does
    not pass [isdigit], the id of no poll, the id of a poll), the poll-info
    handler settles its poll as the vote handler does and the outcome is of
    the same kind: the same poll, a reply to the user, or the
    invalid-arguments error.  With several active polls and no poll id the
    two differ: the vote handler replies to the user and returns, the
    poll-info handler raises the invalid-arguments error. *)
Theorem poll_info_resolves_like_vote msg choice rest b :
  (get_active_channel_poll_count b (channel_name msg) <= 1
   \/ length rest = 1%nat ->
   same_kind (vote_resolution msg (choice :: rest) b)
             (poll_info_resolution msg rest b) = true)
  /\
  (1 < get_active_channel_poll_count b (channel_name msg) ->
   rest = [] ->
   (exists text, vote_resolution msg (choice :: rest) b = Reply text)
   /\ (exists reason cmd,
         poll_info_resolution msg rest b
         = Error (InvalidArgumentsError reason cmd))).
Proof.
  split.
  - intros H.
    destruct (get_active_channel_polls b (channel_name msg)) as [|p [|q l]] eqn:E.
    + destruct (resolution_none msg choice rest rest b E) as [-> ->].
      reflexivity.
    + destruct (resolution_single msg choice rest rest b p E) as [-> ->].
      simpl. apply Nat.eqb_refl.
    + assert (Hc : 1 < get_active_channel_poll_count b (channel_name msg)).
      { unfold get_active_channel_poll_count. rewrite E. simpl. lia. }
      destruct H as [H|H]; [lia|].
      destruct rest as [|pid [|x rest]]; try discriminate.
      rewrite vote_resolution_by_id, poll_info_resolution_by_id by assumption.
      destruct (isdigit pid) eqn:Hd.
      * destruct (int pid) as [n|] eqn:Hn.
        -- rewrite (cast_int _ _ Hn). simpl.
           destruct (get_channel_poll_by_id b (channel_name msg) n);
             simpl; [apply Nat.eqb_refl | reflexivity].
        -- rewrite cast_digit_not_decimal; [reflexivity | assumption |].
           destruct (decimal_string pid) eqn:Hdec; [|reflexivity].
           apply int_decimal in Hdec as [n Hn']. congruence.
      * rewrite (cast_not_digit _ Hd). reflexivity.
  - intros Hc ->. split.
    + eexists. apply vote_resolution_asks; [assumption | simpl; lia].
    + do 2 eexists. now apply poll_info_resolution_no_id.
Qed.

(** C10.  With exactly one active poll in the channel, the vote handler and
    the poll-info handler act on that poll whatever else they are given: the
    arguments after the choice id, for the vote, and all the arguments, for
    poll-info, are not read, so none of them can raise an error. *)
Theorem single_poll_ignores_poll_id msg b :
  get_active_channel_poll_count b (channel_name msg) = 1 ->
  exists poll,
    get_active_channel_polls b (channel_name msg) = [poll]
    /\ (forall choice extra,
          cmd_vote msg (choice :: extra) b = vote_on msg choice poll b)
    /\ (forall args,
          cmd_poll_info msg args b = reply msg (poll_info_text (snd poll)) b).
Proof.
  intros [poll E]%count_one. exists poll. split; [assumption|]. split.
  - intros choice extra. rewrite cmd_vote_resolution.
    now destruct (resolution_single msg choice extra [] b poll E) as [-> _].
  - intros args. rewrite cmd_poll_info_resolution.
    now destruct (resolution_single msg EmptyString [] args b poll E) as [_ ->].
Qed.

End Handlers.

(** *** The listing of the polls *)

Lemma join_listing ps : join " | " (map poll_entry ps) = listing ps.
Proof.
  induction ps as [|p [|q ps] IH]; [reflexivity | reflexivity |].
  change (poll_entry p +:+ " | " +:+ join " | " (map poll_entry (q :: ps))
          = poll_entry p +:+ " | " +:+ listing (q :: ps)).
  now rewrite IH.
Qed.

(** The active polls of a channel are the polls of that channel, in the
    order of the store. *)
Lemma active_polls_in_order_from (g : nat -> PollData -> nat * PollData)
    (P : PollData -> bool) (l : list PollData) :
  (forall i p, snd (g i p) = p) ->
  map snd (List.filter (fun ip => P (snd ip)) (imap g l)) = List.filter P l.
Proof.
  revert g. induction l as [|p l IH]; intros g Hg; [reflexivity|].
  cbn [imap List.filter]. rewrite Hg.
  destruct (P p); cbn [map]; rewrite ?Hg, IH; auto; intros; apply Hg.
Qed.

Lemma active_polls_in_order b ch :
  map snd (get_active_channel_polls b ch)
  = List.filter (fun p => String.eqb (channel p) ch) (polls b).
Proof.
  unfold get_active_channel_polls.
  now apply (active_polls_in_order_from pair
               (fun p => String.eqb (channel p) ch)).
Qed.

(** C9.  The list-polls handler sends one reply: the text made of one entry
    [id -> "title"] for each active poll of the channel, in the order they
    are listed, with [ | ] between two entries.  With no active poll in the
    channel the text is the empty string. *)
Theorem list_polls_reply msg args b :
  cmd_list_polls msg args b =
  (Return tt,
   {| polls := polls b;
      replies := replies b ++
        [(channel_name msg,
          listing (List.filter
                     (fun p => String.eqb (channel p) (channel_name msg))
                     (polls b)))];
      stdout := stdout b |})
  /\ (get_active_channel_poll_count b (channel_name msg) = 0 ->
      cmd_list_polls msg args b =
      (Return tt,
       {| polls := polls b;
          replies := replies b ++ [(channel_name msg, EmptyString)];
          stdout := stdout b |}))
  /\ (forall p q ps,
        listing (p :: q :: ps)
        = (str_of_int (id p) +:+ " -> " +:+ dquote +:+ title p +:+ dquote)
          +:+ " | " +:+ listing (q :: ps))
  /\ (forall p,
        listing [p]
        = str_of_int (id p) +:+ " -> " +:+ dquote +:+ title p +:+ dquote).
Proof.
  assert (Hrun : forall text,
    text = listing (map snd (get_active_channel_polls b (channel_name msg))) ->
    cmd_list_polls msg args b =
    (Return tt,
     {| polls := polls b; replies := replies b ++ [(channel_name msg, text)];
        stdout := stdout b |})).
  { intros text ->. unfold cmd_list_polls, bind, get, reply.
    rewrite <- join_listing, map_map. reflexivity. }
  split; [|split; [|split]].
  - apply Hrun. now rewrite active_polls_in_order.
  - intros H. apply count_zero in H. apply Hrun. now rewrite H.
  - reflexivity.
  - reflexivity.
Qed.

(** *** The properties on the sample polls *)

Lemma ids_are_digit_strings_witness :
  _cast_to_int_or_error "-1"
  = Raise (InvalidArgumentsError "-1 is not a valid number" None)
  /\ vote_on Samples.in_range_vote Samples.comma_choices Samples.msg_bob "1.5"
       (0%nat, Samples.poll1) Samples.three_polls
     = (Raise (InvalidArgumentsError "1.5 is not a valid number" (Some "vote")),
        Samples.three_polls)
  /\ cmd_poll_info "!" Samples.comma_choices Samples.ten_seconds
       Samples.msg_bob ["-1"] Samples.three_polls
     = (Raise (InvalidArgumentsError "-1 is not valid number" (Some "pollinfo")),
        Samples.three_polls)
  /\ poll_info_resolution "!" Samples.msg_bob ["3"] Samples.three_polls
     = Target (2%nat, Samples.poll3).
Proof.
  destruct (ids_are_digit_strings "!" Samples.in_range_vote
              Samples.comma_choices Samples.ten_seconds)
    as (_ & Hcast & Hvote & _ & Hinfo & _).
  split; [apply Hcast; reflexivity|].
  split; [apply (Hvote Samples.msg_bob "1.5" (0%nat, Samples.poll1)
                   Samples.three_polls); reflexivity|].
  destruct (Hinfo Samples.msg_bob "-1" [] Samples.three_polls) as [_ Hno];
    [vm_compute; reflexivity|].
  split; [apply Hno; reflexivity|].
  destruct (Hinfo Samples.msg_bob "3" [] Samples.three_polls) as [Hyes _];
    [vm_compute; reflexivity|].
  apply (Hyes 3). reflexivity.
Defined.

(** Two polls are active in the channel and the vote names none: the
    handler replies and returns, it raises no invalid-arguments error. *)
Lemma vote_without_poll_id_replies :
  get_active_channel_poll_count Samples.three_polls "chan" = 2
  /\ cmd_vote "!" Samples.in_range_vote Samples.comma_choices
       Samples.msg_bob ["1"] Samples.three_polls
     = (Return tt,
        {| polls := polls Samples.three_polls;
           replies :=
             [("chan",
               "@bob there are multiple polls active, please specify the poll id, example: !vote 1 <POLL_ID>")];
           stdout := [] |})
  /\ is_invalid_arguments
       (fst (cmd_vote "!" Samples.in_range_vote Samples.comma_choices
               Samples.msg_bob ["1"] Samples.three_polls)) = false.
Proof. repeat split. Qed.

Lemma vote_needs_poll_id_witness :
  cmd_vote "!" Samples.in_range_vote Samples.comma_choices
    Samples.msg_bob ["1"; "x"] Samples.three_polls
  = (Raise (InvalidArgumentsError "x is not a valid number" None),
     Samples.three_polls)
  /\ cmd_vote "!" Samples.in_range_vote Samples.comma_choices
       Samples.msg_bob ["1"; "2"] Samples.three_polls
     = (Raise (InvalidArgumentsError "Could not find poll by ID 2" (Some "vote")),
        Samples.three_polls).
Proof.
  destruct (vote_needs_poll_id "!" Samples.in_range_vote Samples.comma_choices
              Samples.msg_bob Samples.three_polls) as (_ & Hbad & Hnone).
  { vm_compute. reflexivity. }
  split.
  - apply Hbad. reflexivity.
  - apply (Hnone "1" "2" 2); reflexivity.
Defined.

Lemma second_vote_is_silent_witness :
  cmd_vote "!" Samples.in_range_vote Samples.comma_choices
    Samples.msg_bob ["1"; "1"] Samples.bob_voted
  = (Return tt, Samples.bob_voted)
  /\ fst (cmd_vote "!" Samples.in_range_vote Samples.comma_choices
            Samples.msg_bob ["2"; "1"] Samples.three_polls) = Return tt
  /\ polls (snd (cmd_vote "!" Samples.in_range_vote Samples.comma_choices
                   Samples.msg_bob ["2"; "1"] Samples.three_polls))
     = polls Samples.bob_voted.
Proof.
  split.
  - destruct (second_vote_is_silent "!" Samples.in_range_vote
                Samples.comma_choices Samples.msg_bob "1" ["1"]
                Samples.bob_voted 0%nat
                (add_vote Samples.poll1 "bob" 2) 1) as [H _];
      [reflexivity | reflexivity | reflexivity | reflexivity |].
    apply H. reflexivity.
  - destruct (second_vote_is_silent "!" Samples.in_range_vote
                Samples.comma_choices Samples.msg_bob "2" ["1"]
                Samples.three_polls 0%nat Samples.poll1 2) as [_ H];
      [reflexivity | reflexivity | reflexivity | reflexivity |].
    destruct (H eq_refl) as (Hret & Hpolls & _).
    split; [exact Hret | exact Hpolls].
Defined.

(** Two polls are active in the channel and no poll id is given: the vote
    handler replies, the poll-info handler raises. *)
Lemma poll_info_differs_without_id :
  get_active_channel_poll_count Samples.three_polls "chan" = 2
  /\ vote_resolution "!" Samples.msg_bob ["1"] Samples.three_polls
     = Reply "@bob there are multiple polls active, please specify the poll id, example: !vote 1 <POLL_ID>"
  /\ poll_info_resolution "!" Samples.msg_bob [] Samples.three_polls
     = Error (InvalidArgumentsError
                "multiple polls are running, the poll id is required to be passed, example: !pollinfo <POLL_ID>"
                (Some "pollinfo"))
  /\ same_kind (vote_resolution "!" Samples.msg_bob ["1"] Samples.three_polls)
               (poll_info_resolution "!" Samples.msg_bob [] Samples.three_polls)
     = false
  /\ fst (cmd_vote "!" Samples.in_range_vote Samples.comma_choices
            Samples.msg_bob ["1"] Samples.three_polls) = Return tt
  /\ is_invalid_arguments
       (fst (cmd_poll_info "!" Samples.comma_choices Samples.ten_seconds
               Samples.msg_bob [] Samples.three_polls)) = true.
Proof. repeat split. Qed.

Lemma poll_info_resolves_like_vote_witness :
  same_kind (vote_resolution "!" Samples.msg_bob ["1"; "3"] Samples.three_polls)
            (poll_info_resolution "!" Samples.msg_bob ["3"] Samples.three_polls)
  = true
  /\ exists text,
       vote_resolution "!" Samples.msg_bob ["1"] Samples.three_polls
       = Reply text.
Proof.
  split.
  - destruct (poll_info_resolves_like_vote "!" Samples.msg_bob "1" ["3"]
                Samples.three_polls) as [H _].
    apply H. right. reflexivity.
  - destruct (poll_info_resolves_like_vote "!" Samples.msg_bob "1" []
                Samples.three_polls) as [_ H].
    destruct H as [Hv _]; [vm_compute; reflexivity | reflexivity | exact Hv].
Defined.

Lemma list_polls_reply_witness :
  cmd_list_polls Samples.msg_idle [] Samples.three_polls
  = (Return tt,
     {| polls := polls Samples.three_polls;
        replies := [("idle", EmptyString)]; stdout := [] |}).
Proof.
  destruct (list_polls_reply Samples.msg_idle [] Samples.three_polls)
    as (_ & H & _).
  apply H. reflexivity.
Defined.

Lemma single_poll_ignores_poll_id_witness :
  exists poll,
    get_active_channel_polls Samples.three_polls "solo" = [poll]
    /\ cmd_vote "!" Samples.in_range_vote Samples.comma_choices
         Samples.msg_solo ["1"; "not-a-number"] Samples.three_polls
       = vote_on Samples.in_range_vote Samples.comma_choices
           Samples.msg_solo "1" poll Samples.three_polls.
Proof.
  destruct (single_poll_ignores_poll_id "!" Samples.in_range_vote
              Samples.comma_choices Samples.ten_seconds
              Samples.msg_solo Samples.three_polls) as (poll & E & Hv & _).
  { reflexivity. }
  exists poll. split; [exact E | apply Hv].
Defined.

Lemma parse_poll_data_spec_witness :
  _parse_poll_data 7 Samples.msg_no_duration
  = Some (new_PollData 7 "chan" "bob" "what should i eat?" (Int 30)
                       ["apples"; "oranges"; "potatos"])
  /\ _parse_poll_data 7 Samples.msg_no_choices = None.
Proof.
  destruct parse_poll_data_spec as (_ & Hdefault & _ & _ & _ & Hnone).
  split.
  - apply (Hdefault 7 Samples.msg_no_duration "what should i eat? "
             "apples, oranges, potatos" EmptyString);
      first [reflexivity | discriminate].
  - apply Hnone. reflexivity.
Defined.

End PollCommandsSpec.

(* ===================================================================== *)
(** * Further properties of the mod loader                                *)
(* ===================================================================== *)

Module DictMore.
Import Dict.

Section Facts.
Context {V : Type}.
Implicit Types (d : dict V) (k : string) (v : V).

Lemma get_app_l k v d tail :
  get k d = Some v -> get k (d ++ tail) = Some v.
Proof.
  induction d as [|[k' v'] d IH]; simpl; [discriminate|].
  destruct (String.eqb k' k); [trivial | exact IH].
Qed.

Lemma get_app_fresh k d tail :
  contains k d = false -> get k (d ++ tail) = get k tail.
Proof.
  unfold contains. induction d as [|[k' v'] d IH]; simpl; [reflexivity|].
  destruct (String.eqb k' k); [discriminate | exact IH].
Qed.

Lemma del_app_fresh k v d :
  contains k d = false -> del k (d ++ [(k, v)]) = d.
Proof.
  unfold contains. induction d as [|[k' v'] d IH]; simpl.
  - now rewrite String.eqb_refl.
  - destruct (String.eqb k' k); [discriminate|].
    intros H. now rewrite IH.
Qed.

Lemma contains_app_last k v d : contains k (d ++ [(k, v)]) = true.
Proof.
  unfold contains. induction d as [|[k' v'] d IH]; simpl.
  - now rewrite String.eqb_refl.
  - destruct (String.eqb k' k); [reflexivity | exact IH].
Qed.

Lemma del_in k d kv : In kv (del k d) -> In kv d.
Proof.
  induction d as [|[k' v'] d IH]; simpl; [tauto|].
  destruct (String.eqb k' k); simpl; tauto.
Qed.

End Facts.
End DictMore.

Module ModLoaderMore.
Import Py ModLoader.

Section Registry.
Context {World Args : Type}.
Implicit Types (m : Mod World Args) (s : state World Args).

(** The two outcomes of [register_mod] in full. *)
Lemma register_mod_refused m s :
  Dict.contains (name m) (mods s) || negb (can_register m) = true ->
  register_mod m s = (Return false, s).
Proof. intros H. unfold register_mod. now rewrite H. Qed.

Lemma register_mod_inserts m s :
  Dict.contains (name m) (mods s) || negb (can_register m) = false ->
  register_mod m s =
  (match snd (register m (world s)) with
   | None => Return true
   | Some e => Raise e
   end,
   {| mods := mods s ++ [(name m, m)];
      world := fst (register m (world s));
      calls := calls s ++ [RegisterCall (name m)];
      printed := printed s |}).
Proof.
  intros H. unfold register_mod, invoke. rewrite H.
  apply orb_false_iff in H as [Hc _].
  simpl. rewrite (DictFacts.set_fresh _ _ _ Hc).
  destruct (register m (world s)) as [w [e|]]; reflexivity.
Qed.

Lemma unregister_mod_removes m s :
  can_unregister m = true -> Dict.contains (name m) (mods s) = true ->
  unregister_mod m s =
  (match snd (unregister m (world s)) with
   | None => Return true
   | Some e => Raise e
   end,
   {| mods := Dict.del (name m) (mods s);
      world := fst (unregister m (world s));
      calls := calls s ++ [UnregisterCall (name m)];
      printed := printed s |}).
Proof.
  intros Hu Hc. unfold unregister_mod, invoke. rewrite Hu, Hc. simpl.
  destruct (unregister m (world s)) as [w [e|]]; reflexivity.
Qed.

(** X1.  Registering a mod a second time always fails and changes nothing,
    whatever the first call did; and once a mod got in, no mod of the same
    name gets in: the call returns [False] and the state stays. *)
Theorem register_mod_again m s :
  register_mod m (snd (register_mod m s))
  = (Return false, snd (register_mod m s))
  /\ (forall m',
        name m' = name m ->
        Dict.contains (name m) (mods s) = false -> can_register m = true ->
        register_mod m' (snd (register_mod m s))
        = (Return false, snd (register_mod m s))).
Proof.
  split.
  - destruct (Dict.contains (name m) (mods s) || negb (can_register m)) eqn:E.
    + rewrite (register_mod_refused m s E). simpl.
      now apply register_mod_refused.
    + rewrite (register_mod_inserts m s E). simpl.
      apply register_mod_refused. simpl.
      now rewrite DictMore.contains_app_last.
  - intros m' Hname Hc Hr.
    rewrite (register_mod_inserts m s) by now rewrite Hc, Hr.
    simpl. apply register_mod_refused. simpl.
    now rewrite Hname, DictMore.contains_app_last.
Qed.

(** X2.  [register_mod] never replaces or moves an entry: the registry
    after the call is the registry before it, followed by the new entry if
    the mod got in; the [register] callback is called exactly when the mod got
    in; no other callback is called. *)
Theorem register_mod_only_appends m s :
  exists added,
    mods (snd (register_mod m s)) = mods s ++ added
    /\ (added = [] \/ added = [(name m, m)])
    /\ calls (snd (register_mod m s))
       = calls s ++ map (fun kv => RegisterCall (fst kv)) added
    /\ printed (snd (register_mod m s)) = printed s
    /\ (forall k v, Dict.get k (mods s) = Some v ->
          Dict.get k (mods (snd (register_mod m s))) = Some v).
Proof.
  destruct (Dict.contains (name m) (mods s) || negb (can_register m)) eqn:E.
  - rewrite (register_mod_refused m s E). exists []. simpl.
    rewrite !app_nil_r. auto.
  - rewrite (register_mod_inserts m s E). exists [(name m, m)]. simpl.
    repeat split; auto. intros k v. apply DictMore.get_app_l.
Qed.

(** X3.  Registering a mod under a new name and unregistering it gives the
    registry back as it was; the two callbacks were called, in that order,
    and both calls return [True] when the callbacks return. *)
Theorem register_unregister_round_trip m s :
  Dict.contains (name m) (mods s) = false ->
  can_register m = true -> can_unregister m = true ->
  let s1 := snd (register_mod m s) in
  let s2 := snd (unregister_mod m s1) in
  mods s2 = mods s
  /\ calls s2 = calls s ++ [RegisterCall (name m); UnregisterCall (name m)]
  /\ (snd (register m (world s)) = None ->
      snd (unregister m (fst (register m (world s)))) = None ->
      fst (register_mod m s) = Return true
      /\ fst (unregister_mod m s1) = Return true).
Proof.
  intros Hc Hr Hu.
  rewrite (register_mod_inserts m s) by now rewrite Hc, Hr.
  cbn [snd fst]. rewrite unregister_mod_removes;
    [|assumption | apply DictMore.contains_app_last].
  cbn [snd fst mods calls world].
  split; [now apply DictMore.del_app_fresh|].
  split; [now rewrite <- app_assoc|].
  intros -> ->. auto.
Qed.

(** X4.  [unregister_mod] goes by the name alone.  Given any mod with the
    name of a registered one and able to be unregistered, it removes the
    registered entry, whatever that entry says about being unregistered, and
    the callback it calls is the one of the mod it was given. *)
Theorem unregister_mod_by_name m m' s :
  Dict.wf (mods s) ->
  Dict.get (name m) (mods s) = Some m ->
  name m' = name m -> can_unregister m' = true ->
  let s1 := snd (unregister_mod m' s) in
  Dict.get (name m) (mods s1) = None
  /\ S (length (mods s1)) = length (mods s)
  /\ calls s1 = calls s ++ [UnregisterCall (name m)]
  /\ world s1 = fst (unregister m' (world s)).
Proof.
  intros Hwf Hget Hname Hu.
  assert (Hc : Dict.contains (name m') (mods s) = true).
  { unfold Dict.contains. now rewrite Hname, Hget. }
  rewrite (unregister_mod_removes m' s Hu Hc). cbn [snd mods calls world].
  rewrite Hname. repeat split.
  - now apply DictFacts.get_del_eq.
  - apply DictFacts.length_del. now rewrite <- Hname.
Qed.

(** *** The round of an event *)

(** One mod of the round, whatever its hook does: the registry stays, at
    most one call and at most one report are added, and a report only with
    a call. *)
Lemma trigger_one_frame event (args : Args) m s :
  exists cs rs,
    mods (snd (trigger_one event args m s)) = mods s
    /\ calls (snd (trigger_one event args m s)) = calls s ++ cs
    /\ printed (snd (trigger_one event args m s)) = printed s ++ rs
    /\ (cs = [] \/ cs = hook_calls event [m])
    /\ (length rs <= length cs)%nat
    /\ (fst (trigger_one event args m s) = Return tt ->
        cs = hook_calls event [m]).
Proof.
  unfold trigger_one, hook_calls, invoke, _missing_function. simpl.
  destruct (attr m (value event)) as [hook|] eqn:Hattr.
  - destruct (hook args (world s)) as [w [e|]]; simpl.
    + destruct (is_Exception e); simpl.
      * exists [HookCall (name m) event],
          [{| report_mod := name m; report_event := event;
              report_error := e |}].
        simpl. repeat split; auto.
      * exists [HookCall (name m) event], []. simpl.
        rewrite app_nil_r. repeat split; auto.
    + exists [HookCall (name m) event], []. simpl.
      rewrite app_nil_r. repeat split; auto.
  - exists [], []. simpl. rewrite !app_nil_r. repeat split; auto.
Qed.

Lemma hook_calls_app event (ms1 ms2 : list (Mod World Args)) :
  hook_calls event (ms1 ++ ms2) = hook_calls event ms1 ++ hook_calls event ms2.
Proof. unfold hook_calls. apply flat_map_app. Qed.

Lemma hook_calls_cons event m (ms : list (Mod World Args)) :
  hook_calls event (m :: ms) = hook_calls event [m] ++ hook_calls event ms.
Proof. apply (hook_calls_app event [m] ms). Qed.

Lemma trigger_loop_frame event (args : Args) ms : forall s,
  exists cs rs,
    mods (snd (trigger_loop event args ms s)) = mods s
    /\ calls (snd (trigger_loop event args ms s)) = calls s ++ cs
    /\ printed (snd (trigger_loop event args ms s)) = printed s ++ rs
    /\ cs `prefix_of` hook_calls event ms
    /\ (length rs <= length cs)%nat
    /\ (fst (trigger_loop event args ms s) = Return tt ->
        cs = hook_calls event ms).
Proof.
  induction ms as [|m ms IH]; intros s.
  - exists [], []. simpl. rewrite !app_nil_r. repeat split; auto.
  - destruct (trigger_one_frame event args m s)
      as (cs1 & rs1 & Hm1 & Hc1 & Hp1 & Hcs1 & Hl1 & Hok1).
    cbn [trigger_loop]. rewrite (hook_calls_cons event m ms).
    destruct (trigger_one event args m s) as [[[]|e] s1] eqn:E;
      cbn [fst snd] in *.
    + pose proof (Hok1 eq_refl) as Hcs. subst cs1.
      destruct (IH s1) as (cs2 & rs2 & Hm2 & Hc2 & Hp2 & Hcs2 & Hl2 & Hok2).
      exists (hook_calls event [m] ++ cs2), (rs1 ++ rs2).
      rewrite Hm2, Hc2, Hp2, Hm1, Hc1, Hp1, !app_assoc.
      split; [reflexivity|]. split; [reflexivity|]. split; [reflexivity|].
      split; [now apply prefix_app|].
      split; [rewrite !length_app; lia|].
      intros H. now rewrite (Hok2 H).
    + exists cs1, rs1.
      split; [assumption|]. split; [assumption|]. split; [assumption|].
      split; [|split; [assumption | discriminate]].
      destruct Hcs1 as [-> | ->]; [apply prefix_nil | apply prefix_app_r].
      reflexivity.
Qed.

(** X5.  A round never touches the registry, whether it ends or a hook
    stops it.  The calls it makes are hooks of the event, taken in the order
    of the registry from its start, without a gap; all of them when the
    round ends normally.  It prints at most one report for each call. *)
Theorem trigger_mod_event_frame event (args : Args) s :
  exists cs rs,
    mods (snd (trigger_mod_event event args s)) = mods s
    /\ calls (snd (trigger_mod_event event args s)) = calls s ++ cs
    /\ printed (snd (trigger_mod_event event args s)) = printed s ++ rs
    /\ cs `prefix_of` hook_calls event (Dict.values (mods s))
    /\ (length rs <= length cs)%nat
    /\ (fst (trigger_mod_event event args s) = Return tt ->
        cs = hook_calls event (Dict.values (mods s))).
Proof. apply trigger_loop_frame. Qed.

(** One mod of the round whose hook does not raise. *)
Lemma trigger_one_quiet event (args : Args) m s :
  never_raises event m ->
  exists s1,
    trigger_one event args m s = (Return tt, s1)
    /\ mods s1 = mods s
    /\ calls s1 = calls s ++ hook_calls event [m]
    /\ printed s1 = printed s.
Proof.
  intros Hm. unfold trigger_one, hook_calls, invoke, _missing_function. simpl.
  destruct (attr m (value event)) as [hook|] eqn:Hattr.
  - pose proof (Hm hook args (world s) Hattr) as Hr.
    destruct (hook args (world s)) as [w r]. simpl in Hr. subst r.
    eexists. split; [reflexivity|]. simpl. auto.
  - eexists. split; [reflexivity|]. simpl. now rewrite app_nil_r.
Qed.

Lemma trigger_loop_quiet event (args : Args) ms :
  Forall (never_raises event) ms ->
  forall s, exists s1,
    trigger_loop event args ms s = (Return tt, s1)
    /\ mods s1 = mods s
    /\ calls s1 = calls s ++ hook_calls event ms
    /\ printed s1 = printed s.
Proof.
  induction 1 as [|m ms Hm Hms IH]; intros s.
  - exists s. simpl. now rewrite app_nil_r.
  - cbn [trigger_loop].
    destruct (trigger_one_quiet event args m s Hm)
      as (s1 & -> & Hm1 & Hc1 & Hp1).
    destruct (IH s1) as (s2 & -> & Hm2 & Hc2 & Hp2).
    exists s2.
    rewrite Hm2, Hc2, Hp2, Hm1, Hc1, Hp1, (hook_calls_cons event m ms).
    repeat split. now rewrite <- app_assoc.
Qed.

(** X6.  A hook that raises an exception that is no instance of
    [Exception] stops the round: the exception reaches the caller, the hooks
    of the mods after it are not called, and nothing is printed for it. *)
Theorem trigger_mod_event_stopped event (args : Args) s ms1 m ms2 hook e :
  Dict.values (mods s) = ms1 ++ m :: ms2 ->
  Forall (never_raises event) ms1 ->
  attr m (value event) = Some hook ->
  (forall w, snd (hook args w) = Some e) ->
  is_Exception e = false ->
  fst (trigger_mod_event event args s) = Raise e
  /\ calls (snd (trigger_mod_event event args s))
     = calls s ++ hook_calls event ms1 ++ [HookCall (name m) event]
  /\ printed (snd (trigger_mod_event event args s)) = printed s.
Proof.
  intros Hvals Hclean Hattr Hraise He. unfold trigger_mod_event.
  rewrite Hvals. clear Hvals. revert s.
  induction Hclean as [|m1 ms1 Hm1 Hms1 IH]; intros s.
  - cbn [app trigger_loop]. unfold trigger_one, invoke. rewrite Hattr.
    pose proof (Hraise (world s)) as Hr.
    destruct (hook args (world s)) as [w r]. simpl in Hr. subst r.
    rewrite He. simpl. auto.
  - cbn [app trigger_loop].
    destruct (trigger_one_quiet event args m1 s Hm1)
      as (s1 & -> & _ & Hc1 & Hp1).
    destruct (IH s1) as (Hres & Hcalls & Hprinted).
    rewrite Hres, Hcalls, Hprinted, Hc1, Hp1, (hook_calls_cons event m1 ms1).
    repeat split. now rewrite <- !app_assoc.
Qed.

(** X7.  A round in which no hook raises prints nothing, returns normally
    and calls every hook of the event, in the order of the registry. *)
Theorem trigger_mod_event_clean event (args : Args) s :
  Forall (never_raises event) (Dict.values (mods s)) ->
  fst (trigger_mod_event event args s) = Return tt
  /\ printed (snd (trigger_mod_event event args s)) = printed s
  /\ mods (snd (trigger_mod_event event args s)) = mods s
  /\ calls (snd (trigger_mod_event event args s))
     = calls s ++ hook_calls event (Dict.values (mods s)).
Proof.
  intros Hclean. unfold trigger_mod_event.
  destruct (trigger_loop_quiet event args _ Hclean s)
    as (s1 & -> & Hm & Hc & Hp).
  auto.
Qed.

(** X8.  Mods are served in the order they were registered: after a mod
    got in under a new name, a round calls the hooks of the mods that were
    there before, in their order, and then the hook of the new one. *)
Theorem registered_last_served_last event (args : Args) m s hook :
  Dict.contains (name m) (mods s) = false -> can_register m = true ->
  attr m (value event) = Some hook ->
  Forall (raises_only_Exception event) (Dict.values (mods s)) ->
  raises_only_Exception event m ->
  let s1 := snd (register_mod m s) in
  fst (trigger_mod_event event args s1) = Return tt
  /\ calls (snd (trigger_mod_event event args s1))
     = calls s ++ [RegisterCall (name m)]
       ++ hook_calls event (Dict.values (mods s))
       ++ [HookCall (name m) event].
Proof.
  intros Hc Hr Hattr Hall Hm.
  rewrite (register_mod_inserts m s) by now rewrite Hc, Hr.
  cbn [snd]. unfold trigger_mod_event. cbn [mods].
  unfold Dict.values. rewrite map_app. cbn [map snd].
  destruct (ModLoaderSpec.trigger_loop_contained event args
              (map snd (mods s) ++ [m])) with
    (s := {| mods := mods s ++ [(name m, m)];
             world := fst (register m (world s));
             calls := calls s ++ [RegisterCall (name m)];
             printed := printed s |})
    as (s2 & -> & _ & Hcalls).
  { apply Forall_app. split; [exact Hall | now constructor]. }
  split; [reflexivity|]. cbn [snd]. rewrite Hcalls. cbn [calls].
  rewrite hook_calls_app. unfold hook_calls at 2. cbn [flat_map].
  rewrite Hattr. now rewrite <- !app_assoc.
Qed.


(** *** Loading the mods of a directory *)

(** What a call of [register_mod] adds. *)
Lemma register_mod_added m s :
  exists added,
    mods (snd (register_mod m s)) = mods s ++ added
    /\ calls (snd (register_mod m s))
       = calls s ++ map (fun kv => RegisterCall (fst kv)) added
    /\ printed (snd (register_mod m s)) = printed s
    /\ Forall (fun kv => fst kv = name (snd kv)) added
    /\ (Dict.wf (mods s) -> Dict.wf (mods (snd (register_mod m s)))).
Proof.
  destruct (Dict.contains (name m) (mods s) || negb (can_register m)) eqn:E.
  - rewrite (register_mod_refused m s E). exists []. simpl.
    rewrite !app_nil_r. auto.
  - pose proof (ModLoaderSpec.register_mod_wf m s) as Hwf.
    rewrite (register_mod_inserts m s E) in *. exists [(name m, m)]. simpl.
    repeat split; auto.
Qed.

Lemma load_objects_added objs : forall s,
  exists added,
    mods (snd (load_objects objs s)) = mods s ++ added
    /\ calls (snd (load_objects objs s))
       = calls s ++ map (fun kv => RegisterCall (fst kv)) added
    /\ printed (snd (load_objects objs s)) = printed s
    /\ Forall (fun kv => fst kv = name (snd kv)) added
    /\ (Dict.wf (mods s) -> Dict.wf (mods (snd (load_objects objs s)))).
Proof.
  induction objs as [|obj objs IH]; intros s.
  - exists []. simpl. rewrite !app_nil_r. auto.
  - destruct obj as [| | |new]; cbn [load_objects]; try apply IH.
    destruct (new (world s)) as [w [m|e]].
    + destruct (register_mod_added m (set_world w s))
        as (a1 & Hm1 & Hc1 & Hp1 & Hk1 & Hwf1).
      destruct (register_mod m (set_world w s)) as [[b|e] s1];
        cbn [fst snd mods calls printed set_world] in *.
      * destruct (IH s1) as (a2 & Hm2 & Hc2 & Hp2 & Hk2 & Hwf2).
        exists (a1 ++ a2).
        rewrite Hm2, Hc2, Hp2, Hm1, Hc1, Hp1, map_app, <- !app_assoc.
        split; [reflexivity|]. split; [reflexivity|]. split; [reflexivity|].
        split; [now apply Forall_app|].
        intros H. specialize (Hwf2 (Hwf1 H)).
        now rewrite Hm2, Hm1, <- app_assoc in Hwf2.
      * exists a1. auto.
    + exists []. simpl. rewrite !app_nil_r. auto.
Qed.

Lemma load_files_added files : forall s,
  exists added,
    mods (snd (load_files files s)) = mods s ++ added
    /\ calls (snd (load_files files s))
       = calls s ++ map (fun kv => RegisterCall (fst kv)) added
    /\ printed (snd (load_files files s)) = printed s
    /\ Forall (fun kv => fst kv = name (snd kv)) added
    /\ (Dict.wf (mods s) -> Dict.wf (mods (snd (load_files files s)))).
Proof.
  induction files as [|file files IH]; intros s.
  - exists []. simpl. rewrite !app_nil_r. auto.
  - cbn [load_files]. destruct (file (world s)) as [w [objs|e]].
    + destruct (load_objects_added objs (set_world w s))
        as (a1 & Hm1 & Hc1 & Hp1 & Hk1 & Hwf1).
      destruct (load_objects objs (set_world w s)) as [[b|e] s1];
        cbn [fst snd mods calls printed set_world] in *.
      * destruct (IH s1) as (a2 & Hm2 & Hc2 & Hp2 & Hk2 & Hwf2).
        exists (a1 ++ a2).
        rewrite Hm2, Hc2, Hp2, Hm1, Hc1, Hp1, map_app, <- !app_assoc.
        split; [reflexivity|]. split; [reflexivity|]. split; [reflexivity|].
        split; [now apply Forall_app|].
        intros H. specialize (Hwf2 (Hwf1 H)).
        now rewrite Hm2, Hm1, <- app_assoc in Hwf2.
      * exists a1. auto.
    + exists []. simpl. rewrite !app_nil_r. auto.
Qed.

(** X10.  Loading a directory only adds to the registry, whatever the
    files hold and however the loading ends: the entries that were there
    stay, in place; each new entry holds a mod under its own name; the
    [register] callbacks of the new entries, in their order, are the only
    calls made; nothing is printed but the first line; and the names stay
    distinct. *)
Theorem load_mods_only_adds fullpath (files : list (pyfile World Args)) s :
  fst (load_mods_from_directory fullpath files s)
  = "loading mods from: " +:+ fullpath
  /\ exists added,
       let s1 := snd (snd (load_mods_from_directory fullpath files s)) in
       mods s1 = mods s ++ added
       /\ calls s1 = calls s ++ map (fun kv => RegisterCall (fst kv)) added
       /\ printed s1 = printed s
       /\ Forall (fun kv => fst kv = name (snd kv)) added
       /\ (Dict.wf (mods s) -> Dict.wf (mods s1))
       /\ (forall k v, Dict.get k (mods s) = Some v ->
             Dict.get k (mods s1) = Some v).
Proof.
  split; [reflexivity|]. unfold load_mods_from_directory. cbn [snd].
  destruct (load_files_added files s) as (added & Hm & Hc & Hp & Hk & Hwf).
  exists added. cbn zeta. repeat split; auto.
  intros k v Hget. rewrite Hm. now apply DictMore.get_app_l.
Qed.

(** X11.  Of the values of a module, only the classes that derive from
    [Mod] and are not [Mod] itself count: the other values can be left out
    without any difference. *)
Theorem load_objects_skips (objs : list (pyobj World Args)) s :
  load_objects objs s = load_objects (List.filter is_mod_subclass objs) s.
Proof.
  revert s. induction objs as [|obj objs IH]; intros s; [reflexivity|].
  destruct obj as [| | |new]; cbn [List.filter is_mod_subclass load_objects];
    try apply IH.
  destruct (new (world s)) as [w [m|e]]; [|reflexivity].
  destruct (register_mod m (set_world w s)) as [[b|e] s1]; [apply IH|].
  reflexivity.
Qed.

(** *** The registry over a run *)

Lemma step_registry_ok (o : op World Args) s :
  registry_ok s -> registry_ok (step o s).
Proof.
  intros [Hwf Hnames]. destruct o as [m|m|event args|fullpath files];
    cbn [step].
  - destruct (register_mod_added m s) as (added & Hm & _ & _ & Hk & Hwf').
    split; [auto|]. rewrite Hm. now apply Forall_app.
  - split; [now apply ModLoaderSpec.unregister_mod_wf|].
    unfold unregister_mod, invoke.
    destruct (negb (can_unregister m)); [assumption|].
    destruct (Dict.contains (name m) (mods s)); [|assumption].
    simpl. destruct (unregister m (world s)) as [w [e|]]; simpl;
      (apply Forall_forall; intros kv Hin%list_elem_of_In%DictMore.del_in;
       now apply (proj1 (Forall_forall _ _) Hnames), list_elem_of_In).
  - destruct (trigger_loop_frame event args (Dict.values (mods s)) s)
      as (cs & rs & Hm & _).
    unfold registry_ok, trigger_mod_event. now rewrite Hm.
  - unfold load_mods_from_directory. cbn [snd].
    destruct (load_files_added files s) as (added & Hm & _ & _ & Hk & Hwf').
    split; [auto|]. rewrite Hm. now apply Forall_app.
Qed.

(** X12.  Whatever is done to it (mods registered and unregistered, rounds
    of events, directories loaded), the registry holds every mod under its
    own name and no name twice; so it does from the empty registry. *)
Theorem run_registry_ok (ops : list (op World Args)) s :
  (registry_ok s -> registry_ok (run ops s))
  /\ (mods s = [] -> registry_ok (run ops s))
  /\ (registry_ok s -> forall k m,
        Dict.get k (mods (run ops s)) = Some m -> name m = k).
Proof.
  assert (Hrun : forall s0, registry_ok s0 -> registry_ok (run ops s0)).
  { unfold run. induction ops as [|o ops IH]; intros s0 H; [exact H|].
    simpl. apply IH. now apply step_registry_ok. }
  assert (Hget : forall (d : Dict.dict (Mod World Args)) k m,
    Forall (fun kv => fst kv = name (snd kv)) d ->
    Dict.get k d = Some m -> name m = k).
  { intros d k m Hd. induction Hd as [|[k' m'] d Hkv Hd IH]; simpl;
      [discriminate|].
    destruct (String.eqb_spec k' k) as [->|Hne]; [|exact IH].
    intros [= ->]. now simpl in Hkv. }
  split; [apply Hrun|]. split.
  - intros Hempty. apply Hrun. unfold registry_ok, Dict.wf.
    rewrite Hempty. split; constructor.
  - intros Hok k m. apply Hget. now apply Hrun.
Qed.

End Registry.

(** *** On the sample mods *)

Lemma register_mod_again_witness :
  register_mod MoreSamples.mod_a_again
    (snd (register_mod Samples.mod_a Samples.no_mods))
  = (Return false, snd (register_mod Samples.mod_a Samples.no_mods)).
Proof.
  destruct (register_mod_again Samples.mod_a Samples.no_mods) as [_ H].
  apply H; reflexivity.
Defined.

Lemma register_unregister_round_trip_witness :
  mods (snd (unregister_mod Samples.mod_b
               (snd (register_mod Samples.mod_b MoreSamples.one_mod))))
  = mods MoreSamples.one_mod
  /\ fst (unregister_mod Samples.mod_b
            (snd (register_mod Samples.mod_b MoreSamples.one_mod)))
     = Return true.
Proof.
  destruct (register_unregister_round_trip Samples.mod_b MoreSamples.one_mod)
    as (Hmods & _ & Hret); [reflexivity | reflexivity | reflexivity |].
  split; [exact Hmods|].
  destruct Hret as [_ H]; [reflexivity | reflexivity | exact H].
Defined.

Lemma unregister_mod_by_name_witness :
  can_unregister MoreSamples.pinned = false
  /\ Dict.get "p" (mods (snd (unregister_mod MoreSamples.loose
                                MoreSamples.pinned_registry))) = None
  /\ world (snd (unregister_mod MoreSamples.loose
                   MoreSamples.pinned_registry)) = 10%nat.
Proof.
  split; [reflexivity|].
  destruct (unregister_mod_by_name MoreSamples.pinned MoreSamples.loose
              MoreSamples.pinned_registry) as (Hgone & _ & _ & Hworld).
  - repeat constructor. simpl. tauto.
  - reflexivity.
  - reflexivity.
  - reflexivity.
  - split; [exact Hgone | exact Hworld].
Defined.

Lemma trigger_mod_event_stopped_witness :
  fst (trigger_mod_event on_connected tt MoreSamples.interrupted_registry)
  = Raise (BaseExceptionOnly "KeyboardInterrupt" EmptyString)
  /\ calls (snd (trigger_mod_event on_connected tt
                   MoreSamples.interrupted_registry))
     = [HookCall "b" on_connected; HookCall "k" on_connected].
Proof.
  destruct (trigger_mod_event_stopped on_connected tt
              MoreSamples.interrupted_registry [Samples.mod_b]
              MoreSamples.mod_k [Samples.mod_a]
              (fun _ => MoreSamples.interrupted)
              (BaseExceptionOnly "KeyboardInterrupt" EmptyString))
    as (Hres & Hcalls & _).
  - reflexivity.
  - repeat constructor. intros hook args w Hattr. simpl in Hattr.
    inversion Hattr. reflexivity.
  - reflexivity.
  - reflexivity.
  - reflexivity.
  - split; [exact Hres | exact Hcalls].
Defined.

Lemma quiet_registry_never_raises :
  Forall (never_raises on_connected)
         (Dict.values (mods MoreSamples.quiet_registry)).
Proof.
  repeat constructor; intros hook args w Hattr; simpl in Hattr;
    inversion Hattr; reflexivity.
Defined.

Lemma trigger_mod_event_clean_witness :
  fst (trigger_mod_event on_connected tt MoreSamples.quiet_registry)
  = Return tt
  /\ printed (snd (trigger_mod_event on_connected tt
                     MoreSamples.quiet_registry)) = [].
Proof.
  destruct (trigger_mod_event_clean on_connected tt MoreSamples.quiet_registry
              quiet_registry_never_raises) as (Hres & Hprinted & _).
  split; [exact Hres | exact Hprinted].
Defined.

Lemma registered_last_served_last_witness :
  calls (snd (trigger_mod_event on_connected tt
                (snd (register_mod Samples.mod_b MoreSamples.one_mod))))
  = [RegisterCall "b"; HookCall "a" on_connected; HookCall "b" on_connected].
Proof.
  destruct (registered_last_served_last on_connected tt Samples.mod_b
              MoreSamples.one_mod (fun _ => Samples.quiet)) as [_ H].
  - reflexivity.
  - reflexivity.
  - reflexivity.
  - repeat constructor. intros hook args w e Hattr Hrun. simpl in Hattr.
    inversion Hattr. subst hook. simpl in Hrun. inversion Hrun. reflexivity.
  - intros hook args w e Hattr Hrun. simpl in Hattr.
    inversion Hattr. subst hook. simpl in Hrun. inversion Hrun.
  - exact H.
Defined.


Lemma run_registry_ok_witness :
  registry_ok (run MoreSamples.sample_run Samples.no_mods)
  /\ Dict.keys (mods (run MoreSamples.sample_run Samples.no_mods))
     = ["b"; "c"].
Proof.
  destruct (run_registry_ok MoreSamples.sample_run Samples.no_mods)
    as (_ & H & _).
  split; [apply H; reflexivity | reflexivity].
Defined.

End ModLoaderMore.

(* ===================================================================== *)
(** * Further properties of the poll commands                             *)
(* ===================================================================== *)

Module PollCommandsMore.
Import Py PollCommands PollCommandsSpec.

(** An active poll of a channel is a poll of that channel. *)
Lemma active_poll_channel b ch i p :
  In (i, p) (get_active_channel_polls b ch) -> channel p = ch.
Proof.
  unfold get_active_channel_polls. intros [_ H]%filter_In.
  simpl in H. now apply String.eqb_eq.
Qed.

Lemma poll_by_id_found b ch n i p :
  get_channel_poll_by_id b ch n = Some (i, p) ->
  In (i, p) (get_active_channel_polls b ch) /\ id p = n.
Proof.
  unfold get_channel_poll_by_id. intros [Hin H]%find_some.
  simpl in H. split; [assumption | now apply Z.eqb_eq].
Qed.

Section Handlers.
Variable prefix : string.
Variable is_valid_vote : PollData -> Z -> bool.
Variable format_choices : PollData -> string.
Variable seconds_left : PollData -> string.

Abbreviation cmd_vote := (cmd_vote prefix is_valid_vote format_choices).
Abbreviation vote_resolution := (vote_resolution prefix).
Abbreviation cmd_poll_info := (cmd_poll_info prefix format_choices seconds_left).
Abbreviation poll_info_resolution := (poll_info_resolution prefix).
Abbreviation poll_info_text := (poll_info_text format_choices seconds_left).

(** The poll the vote handler settles on is a poll of the channel of the
    message, at its place among the polls. *)
Lemma vote_resolution_target msg args b i p :
  vote_resolution msg args b = Target (i, p) ->
  polls b !! i = Some p /\ channel p = channel_name msg.
Proof.
  intros H. split; [eapply vote_resolution_lookup, H|].
  revert H. unfold PollCommands.vote_resolution.
  destruct args as [|choice rest]; [discriminate|].
  destruct (get_active_channel_poll_count b (channel_name msg) =? 0);
    [discriminate|].
  destruct (get_active_channel_poll_count b (channel_name msg) =? 1).
  { destruct (get_active_channel_polls b (channel_name msg)) as [|q l] eqn:E;
      [discriminate|].
    intros [= ->]. apply (active_poll_channel b (channel_name msg) i).
    rewrite E. now left. }
  destruct (negb (length (choice :: rest) =? 2)%nat); [discriminate|].
  destruct (_cast_to_int_or_error (nth 1 (choice :: rest) EmptyString))
    as [k|e]; [|discriminate].
  destruct (get_channel_poll_by_id b (channel_name msg) k) as [q|] eqn:E;
    [|discriminate].
  intros [= ->]. apply poll_by_id_found in E as [E _].
  eapply active_poll_channel, E.
Qed.

(** The four ways a call of the vote handler ends. *)
Lemma cmd_vote_cases msg args b :
  (exists e, cmd_vote msg args b = (Raise e, b))
  \/ (exists text,
        cmd_vote msg args b =
        (Return tt,
         {| polls := polls b;
            replies := replies b ++ [(channel_name msg, text)];
            stdout := stdout b |}))
  \/ cmd_vote msg args b = (Return tt, b)
  \/ (exists i p n,
        polls b !! i = Some p
        /\ channel p = channel_name msg
        /\ votes p !! author msg = None
        /\ is_valid_vote p n = true
        /\ cmd_vote msg args b =
           (Return tt,
            {| polls := <[i := add_vote p (author msg) n]> (polls b);
               replies := replies b;
               stdout := stdout b ++ [votes (add_vote p (author msg) n)] |})).
Proof.
  destruct args as [|choice rest]; [left; eexists; reflexivity|].
  rewrite (cmd_vote_resolution prefix is_valid_vote format_choices).
  destruct (vote_resolution msg (choice :: rest) b) as [[i p]|text|e] eqn:E.
  - apply vote_resolution_target in E as [Hlook Hch].
    unfold vote_on. destruct (negb (isdigit choice));
      [left; eexists; reflexivity|].
    destruct (int choice) as [n|]; [|left; eexists; reflexivity].
    unfold vote_choice. cbn [fst snd].
    destruct (is_valid_vote p n) eqn:Hvalid; cbn [negb].
    + destruct (has_already_voted p (author msg)) eqn:Hvoted.
      * right. right. left. reflexivity.
      * right. right. right. exists i, p, n.
        split; [assumption|]. split; [assumption|]. split.
        { unfold has_already_voted in Hvoted.
          apply bool_decide_eq_false in Hvoted.
          destruct (votes p !! author msg) eqn:Ev; [|reflexivity].
          exfalso. apply Hvoted. eauto. }
        split; [exact Hvalid|].
        unfold bind, poll_add_vote, print_votes. cbn [polls replies stdout].
        rewrite Hlook.
        rewrite list_lookup_insert_eq by (eapply lookup_lt_Some; eauto).
        reflexivity.
    + right. left. eexists. reflexivity.
  - right. left. eexists. reflexivity.
  - left. eexists. reflexivity.
Qed.

(** X13.  A call of the vote handler ends in one of three ways only: it
    raises, and then nothing has changed; or it sends one reply to the
    channel of the message, and then no vote was recorded and nothing was
    printed; or it sends no reply at all, also when it records the vote. *)
Theorem cmd_vote_outcomes msg args b :
  let r := cmd_vote msg args b in
  (forall e, fst r = Raise e -> snd r = b)
  /\ (replies (snd r) = replies b
      \/ exists text,
           replies (snd r) = replies b ++ [(channel_name msg, text)]
           /\ polls (snd r) = polls b /\ stdout (snd r) = stdout b)
  /\ (polls (snd r) <> polls b ->
      fst r = Return tt /\ replies (snd r) = replies b
      /\ length (stdout (snd r)) = S (length (stdout b))).
Proof.
  cbn zeta.
  destruct (cmd_vote_cases msg args b)
    as [[e ->]|[[text ->]|[->|(i & p & n & _ & _ & _ & _ & ->)]]];
    cbn [fst snd polls replies stdout].
  - split; [reflexivity|]. split; [now left | congruence].
  - split; [discriminate|]. split; [right; eauto | congruence].
  - split; [discriminate|]. split; [now left | congruence].
  - split; [discriminate|]. split; [now left|].
    intros _. rewrite length_app. simpl. split; [reflexivity|].
    split; [reflexivity | lia].
Qed.

(** X14.  The vote handler never removes a poll, never changes the channel,
    the id, the title, the choices, the owner or the duration of a poll, never
    touches a poll of another channel, and never changes or removes a vote
    that is on record: all it can do is add the vote of the author of the
    message. *)
Theorem cmd_vote_frame msg args b j p :
  polls b !! j = Some p ->
  exists p1,
    polls (snd (cmd_vote msg args b)) !! j = Some p1
    /\ channel p1 = channel p /\ id p1 = id p /\ title p1 = title p
    /\ choices p1 = choices p /\ owner p1 = owner p
    /\ seconds p1 = seconds p
    /\ (forall user c, votes p !! user = Some c -> votes p1 !! user = Some c)
    /\ (forall user, user <> author msg ->
          votes p1 !! user = votes p !! user)
    /\ (channel p <> channel_name msg -> p1 = p)
    /\ length (polls (snd (cmd_vote msg args b))) = length (polls b).
Proof.
  intros Hj.
  destruct (cmd_vote_cases msg args b)
    as [[e ->]|[[text ->]|[->|(i & q & n & Hi & Hch & Hnone & _ & ->)]]];
    cbn [fst snd polls]; try (exists p; repeat split; auto; fail).
  rewrite length_insert.
  destruct (decide (j = i)) as [->|Hne].
  - assert (q = p) by congruence. subst q.
    exists (add_vote p (author msg) n).
    rewrite list_lookup_insert_eq by (eapply lookup_lt_Some; eauto).
    repeat split; auto.
    + intros user c Hc. simpl.
      rewrite lookup_insert_ne; [assumption | congruence].
    + intros user Hu. simpl. now rewrite lookup_insert_ne.
    + congruence.
  - exists p. rewrite list_lookup_insert_ne by congruence.
    repeat split; auto.
Qed.

(** X15.  The handlers that list the polls and show a poll only read: the
    polls and what was printed stay as they were, and either one reply is
    sent to the channel of the message, or (for poll-info only) an error is
    raised and no reply is sent.  The list-polls handler never raises. *)
Theorem listing_handlers_read_only msg args b :
  fst (cmd_list_polls msg args b) = Return tt
  /\ polls (snd (cmd_list_polls msg args b)) = polls b
  /\ stdout (snd (cmd_list_polls msg args b)) = stdout b
  /\ (exists text,
        replies (snd (cmd_list_polls msg args b))
        = replies b ++ [(channel_name msg, text)])
  /\ ((exists e, cmd_poll_info msg args b = (Raise e, b))
      \/ exists text,
           cmd_poll_info msg args b =
           (Return tt,
            {| polls := polls b;
               replies := replies b ++ [(channel_name msg, text)];
               stdout := stdout b |})).
Proof.
  split; [reflexivity|]. split; [reflexivity|]. split; [reflexivity|].
  split; [eexists; reflexivity|].
  rewrite (cmd_poll_info_resolution prefix format_choices seconds_left).
  destruct (poll_info_resolution msg args b) as [poll|text|e].
  - right. eexists. reflexivity.
  - right. eexists. reflexivity.
  - left. eexists. reflexivity.
Qed.

(** X16.  The poll-info handler reads its first argument only: what
    follows it makes no difference, with any number of active polls. *)
Theorem cmd_poll_info_first_argument msg pid rest b :
  cmd_poll_info msg (pid :: rest) b = cmd_poll_info msg [pid] b.
Proof.
  rewrite !(cmd_poll_info_resolution prefix format_choices seconds_left).
  replace (poll_info_resolution msg (pid :: rest) b)
    with (poll_info_resolution msg [pid] b); [reflexivity|].
  unfold PollCommands.poll_info_resolution. cbn [length Nat.eqb].
  reflexivity.
Qed.

(** X17.  With no active poll in the channel both handlers answer with
    their reply whatever the arguments are: a choice id or a poll id that is
    no number raises no error there, since the arguments are looked at only
    once a poll is settled. *)
Theorem no_active_poll_replies msg b :
  get_active_channel_poll_count b (channel_name msg) = 0 ->
  (forall choice rest,
     cmd_vote msg (choice :: rest) b =
     reply msg "there are NOT any active polls running right now to vote for"
           b)
  /\ (forall args,
        cmd_poll_info msg args b =
        reply msg "there are not any polls active right now" b).
Proof.
  intros H%count_zero. split.
  - intros choice rest.
    rewrite (cmd_vote_resolution prefix is_valid_vote format_choices).
    now destruct (resolution_none prefix msg choice rest [] b H) as [-> _].
  - intros args.
    rewrite (cmd_poll_info_resolution prefix format_choices seconds_left).
    now destruct (resolution_none prefix msg EmptyString [] args b H)
      as [_ ->].
Qed.

(** *** Poll ids as arguments *)

Lemma cast_str_of_int n :
  0 <= n -> _cast_to_int_or_error (str_of_int n) = Return n.
Proof. intros H. apply cast_int. now apply int_str_of_int. Qed.

Lemma isdigit_negative n : n < 0 -> isdigit (str_of_int n) = false.
Proof. destruct n as [|q|q]; [lia | lia | reflexivity]. Qed.

Lemma find_In {A} (f : A -> bool) (l : list A) x :
  In x l -> f x = true -> exists y, List.find f l = Some y.
Proof.
  intros Hin Hf. destruct (List.find f l) as [y|] eqn:E; [eauto|].
  pose proof (find_none f l E x Hin). congruence.
Qed.

(** X18.  With several active polls, the id that list-polls shows for a
    poll is accepted back as a poll id by poll-info and by vote, and leads to
    a poll of the channel with that id, provided the id is not negative; a
    poll with a negative id cannot be named, since its id is refused as no
    number. *)
Theorem listed_id_is_accepted msg b i p :
  1 < get_active_channel_poll_count b (channel_name msg) ->
  In (i, p) (get_active_channel_polls b (channel_name msg)) ->
  (0 <= id p ->
   exists j q,
     poll_info_resolution msg [str_of_int (id p)] b = Target (j, q)
     /\ (forall choice,
           vote_resolution msg [choice; str_of_int (id p)] b = Target (j, q))
     /\ id q = id p /\ channel q = channel_name msg
     /\ polls b !! j = Some q)
  /\
  (id p < 0 ->
   cmd_poll_info msg [str_of_int (id p)] b =
   (Raise (InvalidArgumentsError (str_of_int (id p) +:+ " is not valid number")
                                 (Some "pollinfo")), b)
   /\ forall choice,
        cmd_vote msg [choice; str_of_int (id p)] b =
        (Raise (InvalidArgumentsError
                  (str_of_int (id p) +:+ " is not a valid number") None), b)).
Proof.
  intros Hc Hin. split.
  - intros Hid.
    destruct (find_In (fun ip => Z.eqb (id (snd ip)) (id p)) _ (i, p) Hin)
      as [[j q] Hfind]; [apply Z.eqb_refl|].
    fold (get_channel_poll_by_id b (channel_name msg) (id p)) in Hfind.
    exists j, q.
    destruct (poll_by_id_found _ _ _ _ _ Hfind) as [Hq Hidq].
    split; [|split; [|split; [|split]]].
    + rewrite (poll_info_resolution_by_id prefix) by assumption.
      pose proof (int_str_of_int _ Hid) as Hint.
      assert (Hd : isdigit (str_of_int (id p)) = true).
      { apply decimal_isdigit, int_decimal. eauto. }
      now rewrite Hd, Hint, Hfind.
    + intros choice. rewrite (vote_resolution_by_id prefix) by assumption.
      now rewrite (cast_str_of_int _ Hid), Hfind.
    + exact Hidq.
    + eapply active_poll_channel, Hq.
    + eapply active_poll_lookup, Hq.
  - intros Hneg. pose proof (isdigit_negative _ Hneg) as Hd. split.
    + rewrite (cmd_poll_info_resolution prefix format_choices seconds_left).
      rewrite (poll_info_resolution_by_id prefix) by assumption.
      now rewrite Hd.
    + intros choice.
      rewrite (cmd_vote_resolution prefix is_valid_vote format_choices).
      rewrite (vote_resolution_by_id prefix) by assumption.
      now rewrite (cast_not_digit _ Hd).
Qed.

End Handlers.
(** *** The parser of a poll *)

Section Parser.
Import StringFacts.

Lemma lstrip_not_blank s : starts_in is_space (lstrip s) = false.
Proof. rewrite lstrip_drop_while. apply drop_while_stops. Qed.

Lemma lstrip_id s : starts_in is_space s = false -> lstrip s = s.
Proof. destruct s as [|c s]; simpl; [reflexivity | now intros ->]. Qed.

Lemma rstrip_keeps_start s :
  starts_in is_space s = false -> starts_in is_space (rstrip s) = false.
Proof.
  destruct s as [|c s]; simpl; [reflexivity|]. intros Hc.
  destruct (rstrip s); simpl; [now rewrite Hc | exact Hc].
Qed.

Lemma rstrip_idem s : rstrip (rstrip s) = rstrip s.
Proof.
  induction s as [|c s IH]; [reflexivity|]. simpl.
  destruct (rstrip s) as [|d r] eqn:E.
  - destruct (is_space c) eqn:Hc; [reflexivity|]. simpl. now rewrite Hc.
  - change (rstrip (String c (String d r)))
      with (match rstrip (String d r) with
            | EmptyString =>
                if is_space c then EmptyString else String c EmptyString
            | String x y => String c (String x y)
            end).
    now rewrite IH.
Qed.

Lemma strip_idem s : strip (strip s) = strip s.
Proof.
  unfold strip.
  rewrite (lstrip_id (rstrip (lstrip s)))
    by apply rstrip_keeps_start, lstrip_not_blank.
  apply rstrip_idem.
Qed.

Lemma lstrip_blank s : all_chars is_space s = true -> lstrip s = EmptyString.
Proof.
  induction s as [|c s IH]; simpl; [reflexivity|].
  intros [-> H]%andb_true_iff. auto.
Qed.

Lemma strip_blank s : all_chars is_space s = true -> strip s = EmptyString.
Proof. intros H. unfold strip. now rewrite lstrip_blank. Qed.

Lemma split_not_nil sep s : split sep s <> [].
Proof.
  destruct s as [|c s]; simpl; [discriminate|].
  destruct (Ascii.eqb c sep); [discriminate|].
  destruct (split sep s); discriminate.
Qed.

Lemma length_split sep s : length (split sep s) = S (count_char sep s).
Proof.
  induction s as [|c s IH]; simpl; [reflexivity|].
  destruct (Ascii.eqb c sep); simpl; [now rewrite IH|].
  destruct (split sep s) as [|h t] eqn:E; simpl in *; [discriminate | exact IH].
Qed.

Lemma split_pieces sep p s :
  all_chars (fun c => p c || Ascii.eqb c sep) s = true ->
  Forall (fun piece => all_chars p piece = true) (split sep s).
Proof.
  induction s as [|c s IH]; simpl; [intros _; now repeat constructor|].
  intros [Hc Hs]%andb_true_iff. specialize (IH Hs).
  destruct (Ascii.eqb c sep) eqn:E.
  - constructor; [reflexivity | exact IH].
  - rewrite ?E, orb_false_r in Hc.
    destruct (split sep s) as [|h t]; [now repeat constructor; simpl; rewrite Hc|].
    inversion IH; subst. constructor; [simpl; now rewrite Hc | assumption].
Qed.




Lemma all_chars_impl (p q : ascii -> bool) s :
  (forall c, p c = true -> q c = true) ->
  all_chars p s = true -> all_chars q s = true.
Proof.
  intros Hpq. induction s as [|c s IH]; simpl; [reflexivity|].
  intros [Hc Hs]%andb_true_iff. now rewrite (Hpq c Hc), IH.
Qed.



Ltac all_ascii c :=
  destruct c as [[] [] [] [] [] [] [] []]; vm_compute;
  try reflexivity; try discriminate.





Lemma space_not_newline_or c :
  blank_or_comma c = true -> option_char c = true.
Proof. all_ascii c. Qed.

Lemma blank_or_comma_split c :
  blank_or_comma c = is_space c || Ascii.eqb c ","%char.
Proof. all_ascii c. Qed.

(** The parse of a title, a bracketed list of choices and a rest without a
    further opening bracket. *)
Lemma parse_poll_text new_id msg t o after :
  tail msg = t +:+ "[" +:+ o +:+ "]" +:+ after ->
  t <> EmptyString -> all_chars any_but_newline t = true ->
  o <> EmptyString -> all_chars option_char o = true ->
  no_open_bracket after = true ->
  _parse_poll_data new_id msg
  = Some (new_PollData new_id (channel_name msg) (author msg) (strip t)
            (_try_parse_float (take_while time_char (lstrip after)) (Int 30))
            (map strip (split ","%char o))).
Proof.
  intros Htail Ht Hta Ho Hoa Hafter.
  destruct t as [|c t1]; [congruence|]. destruct o as [|d o1]; [congruence|].
  simpl in Hta, Hoa.
  apply andb_true_iff in Hta as [Hc Ht1].
  apply andb_true_iff in Hoa as [Hd Ho1].
  unfold _parse_poll_data. rewrite Htail.
  rewrite (ReFacts.search_at_front _ _ _
             (match_poll_text c t1 d o1 after Hc Ht1 Hd Ho1 Hafter)).
  reflexivity.
Qed.

(** X19.  A number after the bracketed choices is the duration: on a title,
    a bracketed list of choices and a rest whose digits and points after the
    blanks read as a number, the parser gives that number as the duration,
    with the title and the choices. *)
Theorem duration_is_the_number new_id msg t o after x :
  tail msg = t +:+ "[" +:+ o +:+ "]" +:+ after ->
  t <> EmptyString -> all_chars any_but_newline t = true ->
  o <> EmptyString -> all_chars option_char o = true ->
  no_open_bracket after = true ->
  float (take_while time_char (lstrip after)) = Some x ->
  _parse_poll_data new_id msg
  = Some (new_PollData new_id (channel_name msg) (author msg) (strip t) x
                       (map strip (split ","%char o))).
Proof.
  intros Htail Ht Hta Ho Hoa Hafter Hx.
  rewrite (parse_poll_text new_id msg t o after) by assumption.
  unfold _try_parse_float. now rewrite Hx.
Qed.


(** X21.  Whatever the text, the poll data the parser gives are tidy: the
    poll has the id it was given, the channel and the author of the message,
    no votes, at least one choice, and neither the title nor a choice starts
    or ends with a blank (stripping them again changes nothing). *)
Theorem parsed_poll_is_tidy new_id msg pd :
  _parse_poll_data new_id msg = Some pd ->
  id pd = new_id /\ channel pd = channel_name msg /\ owner pd = author msg
  /\ votes pd = ∅
  /\ choices pd <> []
  /\ strip (title pd) = title pd
  /\ Forall (fun c => strip c = c) (choices pd)
  /\ has_bracketed_choices (tail msg).
Proof.
  unfold _parse_poll_data.
  destruct (Re.search RE_POLL_INFO (tail msg)) as [g|] eqn:E; [|discriminate].
  intros [= <-]. cbn [id channel owner votes choices title new_PollData].
  repeat split.
  - intros H%map_eq_nil. now apply split_not_nil in H.
  - apply strip_idem.
  - apply Forall_forall. intros c (piece & <- & _)%list_elem_of_In%in_map_iff.
    apply strip_idem.
  - eapply search_poll_bracketed, E.
Qed.

(** X22.  The parser refuses neither a title of blanks nor choices of
    blanks: a title made of blanks gives the empty title, and a list made of
    blanks and commas gives empty choices, one more than there are commas. *)
Theorem blank_title_and_choices_accepted new_id msg t o after :
  tail msg = t +:+ "[" +:+ o +:+ "]" +:+ after ->
  t <> EmptyString -> all_chars any_but_newline t = true ->
  all_chars is_space t = true ->
  o <> EmptyString -> all_chars blank_or_comma o = true ->
  no_open_bracket after = true ->
  exists pd,
    _parse_poll_data new_id msg = Some pd
    /\ title pd = EmptyString
    /\ Forall (fun c => c = EmptyString) (choices pd)
    /\ length (choices pd) = S (count_char ","%char o).
Proof.
  intros Htail Ht Hta Hblank Ho Hoa Hafter.
  rewrite (parse_poll_text new_id msg t o after); try assumption.
  - eexists. split; [reflexivity|].
    cbn [title choices new_PollData]. split; [now apply strip_blank|].
    split.
    + apply Forall_forall.
      intros c (piece & <- & Hin)%list_elem_of_In%in_map_iff.
      apply strip_blank.
      assert (Hpieces : Forall (fun piece => all_chars is_space piece = true)
                               (split ","%char o)).
      { apply split_pieces.
        apply (all_chars_impl blank_or_comma); [|exact Hoa].
        intros c' Hc'. now rewrite <- blank_or_comma_split. }
      now apply (proj1 (Forall_forall _ _) Hpieces), list_elem_of_In.
    + now rewrite length_map, length_split.
  - eapply all_chars_impl; [apply space_not_newline_or | exact Hoa].
Qed.

End Parser.

(** *** Starting a poll *)

(** X23.  The start-poll handler looks at the number of arguments first:
    with fewer than two it raises the invalid-arguments error, also for a
    text that the parser takes.  With two or more, a text that the parser
    refuses (so any text without a bracketed list of choices) raises the
    invalid-arguments error with the example; the state is as it was in both
    cases.  Otherwise the parsed poll is started, and that is all. *)
Theorem cmd_start_poll_spec prefix next_poll_id poll_start msg args b :
  ((length args < 2)%nat ->
   cmd_start_poll prefix next_poll_id poll_start msg args b =
   (Raise (InvalidArgumentsError "missing required poll arguments"
                                 (Some "startpoll")), b))
  /\
  ((2 <= length args)%nat ->
   (~ has_bracketed_choices (tail msg) ->
    cmd_start_poll prefix next_poll_id poll_start msg args b =
    (Raise (InvalidArgumentsError
       ("your poll commands seems to be improperly formatted, example: "
        +:+ prefix
        +:+ "startpoll what should i eat? [apples, oranges, potatos]")
       (Some "startpoll")), b))
   /\ (forall poll,
         _parse_poll_data (next_poll_id b) msg = Some poll ->
         cmd_start_poll prefix next_poll_id poll_start msg args b
         = poll_start poll b
         /\ id poll = next_poll_id b
         /\ channel poll = channel_name msg /\ owner poll = author msg)).
Proof.
  unfold cmd_start_poll, bind, get, raise. split.
  - intros H. apply Nat.ltb_lt in H. now rewrite H.
  - intros H. apply Nat.ltb_ge in H. rewrite H. split.
    + intros Hno.
      destruct (_parse_poll_data (next_poll_id b) msg) as [poll|] eqn:E;
        [|reflexivity].
      exfalso. apply Hno. unfold _parse_poll_data in E.
      destruct (Re.search RE_POLL_INFO (tail msg)) as [g|] eqn:Es;
        [|discriminate].
      eapply search_poll_bracketed, Es.
    + intros poll E. rewrite E. split; [reflexivity|].
      unfold _parse_poll_data in E.
      destruct (Re.search RE_POLL_INFO (tail msg)); [|discriminate].
      injection E as <-. auto.
Qed.

(** *** On the sample polls *)

Lemma cmd_vote_outcomes_witness :
  snd (cmd_vote "!" Samples.in_range_vote Samples.comma_choices
         Samples.msg_bob ["x"; "1"] Samples.three_polls)
  = Samples.three_polls.
Proof.
  destruct (cmd_vote_outcomes "!" Samples.in_range_vote Samples.comma_choices
              Samples.msg_bob ["x"; "1"] Samples.three_polls) as [H _].
  apply (H (InvalidArgumentsError "x is not a valid number" (Some "vote"))).
  reflexivity.
Defined.

Lemma cmd_vote_frame_witness :
  exists p1,
    polls (snd (cmd_vote "!" Samples.in_range_vote Samples.comma_choices
                  Samples.msg_bob ["1"; "3"] Samples.bob_voted)) !! 0%nat
    = Some p1
    /\ votes p1 !! "bob" = Some 2.
Proof.
  destruct (cmd_vote_frame "!" Samples.in_range_vote Samples.comma_choices
              Samples.msg_bob ["1"; "3"] Samples.bob_voted 0%nat
              (add_vote Samples.poll1 "bob" 2))
    as (p1 & Hlook & _ & _ & _ & _ & _ & _ & Hvotes & _).
  { reflexivity. }
  exists p1. split; [exact Hlook|]. apply Hvotes. reflexivity.
Defined.

Lemma no_active_poll_replies_witness :
  cmd_vote "!" Samples.in_range_vote Samples.comma_choices
    Samples.msg_idle ["not-a-number"] Samples.three_polls
  = (Return tt,
     {| polls := polls Samples.three_polls;
        replies :=
          [("idle",
            "there are NOT any active polls running right now to vote for")];
        stdout := [] |}).
Proof.
  destruct (no_active_poll_replies "!" Samples.in_range_vote
              Samples.comma_choices Samples.ten_seconds
              Samples.msg_idle Samples.three_polls) as [H _].
  { reflexivity. }
  apply H.
Defined.

Lemma listed_id_is_accepted_witness :
  exists j q,
    poll_info_resolution "!" Samples.msg_bob [str_of_int 3] Samples.three_polls
    = Target (j, q)
    /\ id q = 3.
Proof.
  destruct (listed_id_is_accepted "!" Samples.in_range_vote
              Samples.comma_choices Samples.ten_seconds
              Samples.msg_bob Samples.three_polls 2%nat Samples.poll3)
    as [H _].
  - vm_compute. reflexivity.
  - right. left. reflexivity.
  - destruct H as (j & q & Hres & _ & Hid & _); [vm_compute; discriminate|].
    exists j, q. split; [exact Hres | exact Hid].
Defined.

Lemma duration_is_the_number_witness :
  _parse_poll_data 7 MoreSamples.msg_half
  = Some (new_PollData 7 "chan" "bob" "eat pizza" (Float (3 # 2))
                       ["cheese"; "pepperoni"]).
Proof.
  apply (duration_is_the_number 7 MoreSamples.msg_half "eat pizza "
           "cheese, pepperoni" " 1.5" (Float (3 # 2)));
    first [reflexivity | discriminate].
Defined.


Lemma parsed_poll_is_tidy_witness :
  exists pd,
    _parse_poll_data 7 Samples.msg_bob = Some pd
    /\ choices pd <> [] /\ strip (title pd) = title pd.
Proof.
  eexists. split; [reflexivity|].
  destruct (parsed_poll_is_tidy 7 Samples.msg_bob _ eq_refl)
    as (_ & _ & _ & _ & Hne & Htitle & _).
  split; [exact Hne | exact Htitle].
Defined.

Lemma blank_title_and_choices_accepted_witness :
  exists pd,
    _parse_poll_data 7 MoreSamples.msg_blank = Some pd
    /\ title pd = EmptyString
    /\ length (choices pd) = 2%nat.
Proof.
  destruct (blank_title_and_choices_accepted 7 MoreSamples.msg_blank
              " " " , " " ")
    as (pd & Hparse & Htitle & _ & Hlen);
    first [reflexivity | discriminate | idtac].
  exists pd. split; [exact Hparse|]. split; [exact Htitle | exact Hlen].
Defined.

Lemma cmd_start_poll_spec_witness :
  is_invalid_arguments
    (fst (cmd_start_poll "!" MoreSamples.next_id MoreSamples.start_poll
            Samples.msg_bob ["eat"] Samples.three_polls)) = true
  /\ is_invalid_arguments
       (fst (cmd_start_poll "!" MoreSamples.next_id MoreSamples.start_poll
               Samples.msg_no_choices ["eat"; "60"] Samples.three_polls))
     = true
  /\ length (polls (snd (cmd_start_poll "!" MoreSamples.next_id
                           MoreSamples.start_poll Samples.msg_bob
                           ["eat"; "pizza"] Samples.three_polls))) = 4%nat.
Proof.
  split; [|split].
  - destruct (cmd_start_poll_spec "!" MoreSamples.next_id
                MoreSamples.start_poll Samples.msg_bob ["eat"]
                Samples.three_polls) as [H _].
    rewrite H; [reflexivity | simpl; lia].
  - destruct (cmd_start_poll_spec "!" MoreSamples.next_id
                MoreSamples.start_poll Samples.msg_no_choices ["eat"; "60"]
                Samples.three_polls) as [_ H].
    destruct H as [H _]; [simpl; lia|].
    rewrite H; [reflexivity|].
    apply no_open_not_bracketed. reflexivity.
  - destruct (cmd_start_poll_spec "!" MoreSamples.next_id
                MoreSamples.start_poll Samples.msg_bob ["eat"; "pizza"]
                Samples.three_polls) as [_ H].
    destruct H as [_ H]; [simpl; lia|].
    destruct (H _ eq_refl) as [-> _]. reflexivity.
Defined.

End PollCommandsMore.
